(** * Attendance tracker: the state, persistence, percentage and export core of App.js

    A shallow embedding of the logic of [src/App.js] (a React Native
    component) and the properties of its specification.

    - JavaScript strings are sequences of UTF-16 code units ([jsstring]).
    - JavaScript numbers are IEEE 754 binary64 values; the program only
      ever adds, divides and multiplies non-negative numbers, so the
      model keeps the non-negative half of the format ([Number.number]).
    - Subject objects are mutated in place by [updateAttendance], so they
      live in a heap and the profile holds references to them. *)

From Stdlib Require Import ZArith NArith List Bool Lia String Ascii.
From Stdlib Require Import DecimalPos DecimalN.
From Stdlib Require Import Floats.SpecFloat.
From Stdlib Require Import Reals Lra Psatz.
From stdpp Require Import base numbers list.

Set Warnings "-register-all".

Import ListNotations.

(** ** Strings *)

Definition jsstring := list N.

(** A string literal of the source, as code units (ASCII text only). *)
Definition lit (s : string) : jsstring :=
  List.map N_of_ascii (list_ascii_of_string s).

Definition jsstring_eqb (s t : jsstring) : bool := bool_decide (s = t).

(** [String.prototype.trim] removes the WhiteSpace and LineTerminator code
    points of ECMAScript from both ends: TAB, LF, VT, FF, CR, SPACE,
    NBSP, U+1680, U+2000..U+200A, U+2028, U+2029, U+202F, U+205F, U+3000
    and U+FEFF. *)
Definition is_white (c : N) : bool :=
  ((9 <=? c) && (c <=? 13) || (c =? 32) || (c =? 160) || (c =? 5760)
   || (8192 <=? c) && (c <=? 8202) || (c =? 8232) || (c =? 8233)
   || (c =? 8239) || (c =? 8287) || (c =? 12288) || (c =? 65279))%N.

Fixpoint trimStart (s : jsstring) : jsstring :=
  match s with
  | c :: s' => if is_white c then trimStart s' else s
  | [] => []
  end.

Definition trim (s : jsstring) : jsstring :=
  rev (trimStart (rev (trimStart s))).

(** [s.startsWith(t)] *)
Fixpoint startsWith (s t : jsstring) {struct t} : bool :=
  match t, s with
  | [], _ => true
  | _ :: _, [] => false
  | c :: t', c' :: s' => (c =? c')%N && startsWith s' t'
  end.

(** [s.includes(t)]: [t] occurs in [s] at some position. *)
Fixpoint includes (s t : jsstring) : bool :=
  startsWith s t ||
  match s with
  | [] => false
  | _ :: s' => includes s' t
  end.

(** [lines.join(sep)] *)
Fixpoint join (sep : jsstring) (lines : list jsstring) : jsstring :=
  match lines with
  | [] => []
  | [l] => l
  | l :: rest => l ++ sep ++ join sep rest
  end.

(** What [toLowerCase] does to a code unit of an ASCII text. *)
Definition lower_ascii (c : N) : N :=
  if ((65 <=? c) && (c <=? 90))%N then (c + 32)%N else c.

Definition is_ascii (c : N) : Prop := (c < 128)%N.

(** ** Numbers *)

Module Number.
Local Open Scope Z_scope.

(** [Finite m e] is the number [m * 2^e], with [0 <= m]. *)
Inductive number :=
| Finite (m e : Z)
| Infinity
| NaN.

(** The fraction [(n / d) * 2^k], kept as numerator and denominator. *)
Definition shift (n d k : Z) : Z * Z :=
  if 0 <=? k then (n * 2 ^ k, d) else (n, d * 2 ^ (- k)).

(** The exact value of a finite number as a fraction. *)
Definition frac (m e : Z) : Z * Z := shift m 1 e.

(** [floor (log2 (n / d))] for [0 < n] and [0 < d]. *)
Definition ilog2 (n d : Z) : Z :=
  let k := Z.log2 n - Z.log2 d in
  let '(a, b) := shift n d (- k) in
  if b <=? a then k else k - 1.

(** The integer nearest to [a / b], ties to the even one. *)
Definition ties_even (a b : Z) : Z :=
  let q := a / b in
  let r := a mod b in
  if 2 * r <? b then q
  else if b <? 2 * r then q + 1
  else if Z.even q then q else q + 1.

(** IEEE 754 roundTiesToEven of the positive fraction [n / d] into
    binary64: 53 significant bits, least exponent -1074, overflow to
    Infinity from [2^1024] on.  Every arithmetic operator of JavaScript
    rounds its exact result this way. *)
Definition round (n d : Z) : number :=
  if n <=? 0 then Finite 0 0
  else
    let e := Z.max (ilog2 n d - 52) (-1074) in
    let '(a, b) := shift n d (- e) in
    let m := ties_even a b in
    if (0 <=? e) && (2 ^ 1024 <=? m * 2 ^ e) then Infinity else Finite m e.

Definition of_Z (n : Z) : number := round n 1.

(** [x + y] *)
Definition add (x y : number) : number :=
  match x, y with
  | NaN, _ | _, NaN => NaN
  | Infinity, _ | _, Infinity => Infinity
  | Finite mx ex, Finite my ey =>
      let '(nx, dx) := frac mx ex in
      let '(ny, dy) := frac my ey in
      round (nx * dy + ny * dx) (dx * dy)
  end.

(** [x * y] *)
Definition mul (x y : number) : number :=
  match x, y with
  | NaN, _ | _, NaN => NaN
  | Infinity, Infinity => Infinity
  | Infinity, Finite m _ | Finite m _, Infinity =>
      if m =? 0 then NaN else Infinity
  | Finite mx ex, Finite my ey =>
      let '(nx, dx) := frac mx ex in
      let '(ny, dy) := frac my ey in
      round (nx * ny) (dx * dy)
  end.

(** [x / y] *)
Definition div (x y : number) : number :=
  match x, y with
  | NaN, _ | _, NaN => NaN
  | Infinity, Infinity => NaN
  | Infinity, Finite _ _ => Infinity
  | Finite _ _, Infinity => Finite 0 0
  | Finite mx ex, Finite my ey =>
      if my =? 0 then (if mx =? 0 then NaN else Infinity)
      else
        let '(nx, dx) := frac mx ex in
        let '(ny, dy) := frac my ey in
        round (nx * dy) (dx * ny)
  end.

(** [x === 0] *)
Definition is_zero (x : number) : bool :=
  match x with
  | Finite m _ => m =? 0
  | _ => false
  end.

End Number.

Import Number.

(** ** Number to string *)

Fixpoint digits (u : Decimal.uint) : jsstring :=
  match u with
  | Decimal.Nil => []
  | Decimal.D0 u => 48%N :: digits u
  | Decimal.D1 u => 49%N :: digits u
  | Decimal.D2 u => 50%N :: digits u
  | Decimal.D3 u => 51%N :: digits u
  | Decimal.D4 u => 52%N :: digits u
  | Decimal.D5 u => 53%N :: digits u
  | Decimal.D6 u => 54%N :: digits u
  | Decimal.D7 u => 55%N :: digits u
  | Decimal.D8 u => 56%N :: digits u
  | Decimal.D9 u => 57%N :: digits u
  end.

(** The decimal digits of a non-negative integer. *)
Definition decimal (n : Z) : jsstring := digits (N.to_uint (Z.to_N n)).

(** [n] hundredths in fixed notation with two fraction digits. *)
Definition fixed2 (n : Z) : jsstring :=
  decimal (n / 100) ++ lit "."
    ++ [Z.to_N (48 + (n / 10) mod 10); Z.to_N (48 + n mod 10)].

Definition is_digit (c : N) : bool := ((48 <=? c) && (c <=? 57))%N.

(** The number that the leading decimal digits of [s] denote, continuing
    [acc], and the rest of [s]. *)
Fixpoint read_digits (acc : Z) (s : jsstring) : Z * jsstring :=
  match s with
  | c :: rest =>
      if is_digit c
      then read_digits (10 * acc + Z.of_N (c - 48))%Z rest
      else (acc, s)
  | [] => (acc, [])
  end.

(** The number of hundredths that a text made of decimal digits, a
    point and exactly two decimal digits denotes. *)
Definition hundredths (s : jsstring) : option Z :=
  match s with
  | c :: _ =>
      if is_digit c then
        match read_digits 0 s with
        | (n, [point; d1; d2]) =>
            if (point =? 46)%N && is_digit d1 && is_digit d2
            then Some (100 * n + 10 * Z.of_N (d1 - 48) + Z.of_N (d2 - 48))%Z
            else None
        | _ => None
        end
      else None
  | [] => None
  end.

(** ** Data model *)

Module Subject.

(** A subject object [{ name, present, absent }]. *)
Record t := mk { name : jsstring; present : number; absent : number }.

End Subject.

(** The object [{ name, subjects }] held in [attendanceData]; [S] is what
    the [subjects] array holds: references to subject objects in the
    running program, the subject values themselves in a JSON text. *)
Record attendance (S : Type) := mkAttendance {
  name : jsstring;
  subjects : list S;
}.
Arguments mkAttendance {S} name subjects.
Arguments name {S} a.
Arguments subjects {S} a.

(** Subject objects are allocated once and then shared by reference:
    [loc] is the identity of a subject object, the heap (a
    [list Subject.t]) gives the current fields of each of them. *)
Definition loc := nat.

#[global] Instance Subject_inhabited : Inhabited Subject.t :=
  populate (Subject.mk [] (Finite 0 0) (Finite 0 0)).

(** What the program sees when it follows the references of [a]. *)
Definition snapshot (h : list Subject.t) (a : attendance loc)
  : attendance Subject.t :=
  mkAttendance (name a) (List.map (fun l => h !!! l) (subjects a)).

(** ** The JavaScript library functions the model leaves open

    [toLowerCase] follows the Unicode case tables; [JSON.stringify] and
    [JSON.parse] belong to the engine.  [JSON_parse] is [None] when
    [JSON.parse] throws; it is asked for texts of the profile shape
    (texts of another shape are the subject of the shape-generic
    [loadData] below). *)
Class Engine := {
  toLowerCase : jsstring -> jsstring;
  (** [Number::toString] of the finite values that are not integers
      below [2^53] (fraction digits, shortest round-trip digits and
      exponent notation). *)
  other_notation : Z -> Z -> jsstring;
  JSON_stringify : attendance Subject.t -> jsstring;
  JSON_parse : jsstring -> option (attendance Subject.t);
}.

(** ** Number to string and the percentage *)

Section Percentage.
Context {engine : Engine}.

(** [String(x)], as a template literal applies it: an integer below
    [2^53] is written with all its decimal digits. *)
Definition Number_toString (x : number) : jsstring :=
  match x with
  | NaN => lit "NaN"
  | Infinity => lit "Infinity"
  | Finite m e =>
      let '(a, b) := frac m e in
      if ((a mod b =? 0) && (a / b <? 2 ^ 53))%Z then decimal (a / b)
      else other_notation m e
  end.

(** [x.toFixed(2)]: the integer [n] nearest to [x * 100], the larger one
    on a tie, printed with two fraction digits; [String(x)] from
    [10^21] on and for the values that are not finite. *)
Definition toFixed2 (x : number) : jsstring :=
  match x with
  | Finite m e =>
      let '(a, b) := frac m e in
      if (10 ^ 21 * b <=? a)%Z then Number_toString x
      else fixed2 ((200 * a + b) / (2 * b))
  | _ => Number_toString x
  end.

(** [calculatePercentage], App.js lines 80-85. *)
Definition calculatePercentage (present absent : number) : jsstring :=
  let total := add present absent in
  if is_zero total then lit "0.00"
  else
    let percentage := mul (div present total) (of_Z 100) in
    toFixed2 percentage.

End Percentage.

(** ** The component state and its surroundings *)

(** Calls that leave the component. *)
Inductive effect :=
| Alert (title message : jsstring)
| WriteAsString (fileUri contents : jsstring)
| Share (fileUri : jsstring).

(** The [useState] cells of [App] that the operations touch, the heap of
    subject objects, the AsyncStorage item under [STORAGE_KEY] and the
    log of outside calls (latest last).  [V] is the type of the value in
    [attendanceData]. *)
Record World (V : Type) := mkWorld {
  heap : list Subject.t;
  attendanceData : V;
  searchQuery : jsstring;
  isAddModalVisible : bool;
  newSubjectName : jsstring;
  showNamePrompt : bool;
  isLoading : bool;
  storage : option jsstring;
  effects : list effect;
}.
Arguments mkWorld {V}.
Arguments heap {V} w.
Arguments attendanceData {V} w.
Arguments searchQuery {V} w.
Arguments isAddModalVisible {V} w.
Arguments newSubjectName {V} w.
Arguments showNamePrompt {V} w.
Arguments isLoading {V} w.
Arguments storage {V} w.
Arguments effects {V} w.

Section Setters.
Context {V : Type}.
Implicit Type w : World V.

Definition set_heap (h : list Subject.t) w : World V :=
  mkWorld h (attendanceData w) (searchQuery w) (isAddModalVisible w)
    (newSubjectName w) (showNamePrompt w) (isLoading w) (storage w) (effects w).

Definition setAttendanceData (v : V) w : World V :=
  mkWorld (heap w) v (searchQuery w) (isAddModalVisible w)
    (newSubjectName w) (showNamePrompt w) (isLoading w) (storage w) (effects w).

Definition setIsAddModalVisible (b : bool) w : World V :=
  mkWorld (heap w) (attendanceData w) (searchQuery w) b
    (newSubjectName w) (showNamePrompt w) (isLoading w) (storage w) (effects w).

Definition setNewSubjectName (s : jsstring) w : World V :=
  mkWorld (heap w) (attendanceData w) (searchQuery w) (isAddModalVisible w)
    s (showNamePrompt w) (isLoading w) (storage w) (effects w).

Definition setShowNamePrompt (b : bool) w : World V :=
  mkWorld (heap w) (attendanceData w) (searchQuery w) (isAddModalVisible w)
    (newSubjectName w) b (isLoading w) (storage w) (effects w).

Definition setIsLoading (b : bool) w : World V :=
  mkWorld (heap w) (attendanceData w) (searchQuery w) (isAddModalVisible w)
    (newSubjectName w) (showNamePrompt w) b (storage w) (effects w).

(** [AsyncStorage.setItem(STORAGE_KEY, text)], when it succeeds. *)
Definition setItem (text : jsstring) w : World V :=
  mkWorld (heap w) (attendanceData w) (searchQuery w) (isAddModalVisible w)
    (newSubjectName w) (showNamePrompt w) (isLoading w) (Some text) (effects w).

Definition call (f : effect) w : World V :=
  mkWorld (heap w) (attendanceData w) (searchQuery w) (isAddModalVisible w)
    (newSubjectName w) (showNamePrompt w) (isLoading w) (storage w)
    (effects w ++ [f]).

(** [Alert.alert('Error', message)] *)
Definition alert_error (message : string) w : World V :=
  call (Alert (lit "Error") (lit message)) w.

End Setters.

(** ** Loading and saving, App.js lines 35-65

    Neither function looks into the value it moves, so both are stated
    for any type [V] of values.  [parse text h] is [JSON.parse(text)] run
    on the heap [h]: the value and the heap with the objects it created,
    or [None] when it throws.  [stringify h v] is [JSON.stringify(v)]
    read through the heap [h]. *)

Section Persistence.
Context {V : Type}.
Variable parse : jsstring -> list Subject.t -> option (V * list Subject.t).
Variable stringify : list Subject.t -> V -> jsstring.

(** [loadData].  [getItem_ok] tells whether [AsyncStorage.getItem]
    resolves (to the stored item, [null] when there is none) or rejects.
    A string is truthy when it is not empty.  The setters are writes of
    their cells here; the renders that they start, which a value without
    the shape of a profile can make throw, are in [loadData_under]
    below. *)
Definition loadData (getItem_ok : bool) (w : World V) : World V :=
  let w := setIsLoading true w in
  let w :=
    if getItem_ok then
      match storage w with
      | Some (c :: text) =>
          match parse (c :: text) (heap w) with
          | Some (v, h) => setAttendanceData v (set_heap h w)
          | None => alert_error "Failed to load attendance data" w
          end
      | Some [] | None => setShowNamePrompt true w
      end
    else alert_error "Failed to load attendance data" w
  in setIsLoading false w.

(** [saveData(newData)].  [attendanceData_of_render] is the variable
    [attendanceData] of the closure: the state value of the render that
    created the handler.  [setItem_ok] tells whether
    [AsyncStorage.setItem] resolves or rejects. *)
Definition saveData (attendanceData_of_render : V) (newData : V)
    (setItem_ok : bool) (w : World V) : World V :=
  if setItem_ok then setItem (stringify (heap w) newData) w
  else
    setAttendanceData attendanceData_of_render
      (alert_error "Failed to save data. Please try again." w).

End Persistence.

(** ** Loading, with the renders that the setters start

    A call of a setter writes its cell and has React render the
    component again.  Where the call is made after an [await], as those
    of lines 40 and 48 are, a legacy root renders inside the call: an
    exception of that render (line 189 raises one on a value that has no
    [subjects] array) leaves through the call of the setter, into the
    [catch] of [loadData] from line 40 and out of [loadData] from line
    48; a root that has lost the component to such an exception renders
    no more.  A concurrent root renders after [loadData] has returned.
    So whether these two calls throw is an input, as the outcome of
    [AsyncStorage.getItem] is.  The renders of the other calls show the
    profile that is on the screen already. *)

(** What the outside does during one [loadData]. *)
Record LoadEnv := {
  getItem_resolves : bool;
  (** the call of [setAttendanceData] on line 40 *)
  setAttendanceData_throws : bool;
  (** the call of [setIsLoading] on line 48 *)
  setIsLoading_throws : bool;
}.

(** How the promise of an async function ends, with the cells as the
    setters have written them. *)
Inductive settled (V : Type) :=
| Fulfilled (w : World V)
| Rejected (w : World V).
Arguments Fulfilled {V} w.
Arguments Rejected {V} w.

Definition state_of {V} (s : settled V) : World V :=
  match s with
  | Fulfilled w | Rejected w => w
  end.

Section PersistenceAndRender.
Context {V : Type}.
Variable parse : jsstring -> list Subject.t -> option (V * list Subject.t).

(** [loadData], App.js lines 35-50, in the environment [env]. *)
Definition loadData_under (env : LoadEnv) (w : World V) : settled V :=
  let w := setIsLoading true w in
  let w :=
    if getItem_resolves env then
      match storage w with
      | Some (c :: text) =>
          match parse (c :: text) (heap w) with
          | Some (v, h) =>
              let w := setAttendanceData v (set_heap h w) in
              if setAttendanceData_throws env
              then alert_error "Failed to load attendance data" w
              else w
          | None => alert_error "Failed to load attendance data" w
          end
      | Some [] | None => setShowNamePrompt true w
      end
    else alert_error "Failed to load attendance data" w
  in
  let w := setIsLoading false w in
  if setIsLoading_throws env then Rejected w else Fulfilled w.

End PersistenceAndRender.

(** ** The operations on the profile *)

(** [array.filter((element, i) => keep element i)], positions from [i]. *)
Fixpoint filter_from {A} (keep : A -> Z -> bool) (i : Z) (l : list A)
  : list A :=
  match l with
  | [] => []
  | x :: l' =>
      if keep x i then x :: filter_from keep (i + 1)%Z l'
      else filter_from keep (i + 1)%Z l'
  end.

Definition Array_filter {A} (keep : A -> Z -> bool) (l : list A) : list A :=
  filter_from keep 0%Z l.

(** [array[index]] for an integer [index]: [None] is [undefined]. *)
Definition Array_get {A} (l : list A) (index : Z) : option A :=
  if (index <? 0)%Z then None else l !! Z.to_nat index.

Inductive exception := TypeError.

(** How a handler ends: it returns, or an exception leaves it uncaught;
    either way with the world it leaves behind. *)
Inductive completion :=
| Returned (w : World (attendance loc))
| Uncaught (e : exception) (w : World (attendance loc)).

(** The world a handler leaves behind. *)
Definition world_of (c : completion) : World (attendance loc) :=
  match c with
  | Returned w | Uncaught _ w => w
  end.

Inductive button := Cancel | Delete.

(** What the outside does during one [exportToCSV]. *)
Record ExportEnv := {
  documentDirectory : jsstring;
  now : number;
  writeAsStringAsync_ok : bool;
  isAvailableAsync : option bool;
  shareAsync_ok : bool;
}.

Definition Profile : Type := attendance loc.

Section Store.
Context {engine : Engine}.

(** [JSON.parse] creates its subject objects at fresh places. *)
Definition parse (text : jsstring) (h : list Subject.t)
  : option (Profile * list Subject.t) :=
  match JSON_parse text with
  | Some d =>
      Some (mkAttendance (name d) (seq (length h) (length (subjects d))),
            h ++ subjects d)
  | None => None
  end.

Definition stringify (h : list Subject.t) (a : Profile) : jsstring :=
  JSON_stringify (snapshot h a).

(** The state of [useState] before the first render's effects, over a
    given AsyncStorage content. *)
Definition initial (stored : option jsstring) : World Profile :=
  mkWorld [] (mkAttendance [] []) [] false [] false true stored [].

(** [handleAddSubject], App.js lines 100-124. *)
Definition handleAddSubject (setItem_ok : bool) (w : World Profile)
  : World Profile :=
  if bool_decide (trim (newSubjectName w) = []) then
    alert_error "Please enter a subject name" w
  else if
    existsb
      (fun subject =>
         jsstring_eqb
           (toLowerCase (Subject.name (heap w !!! subject)))
           (toLowerCase (trim (newSubjectName w))))
      (subjects (attendanceData w))
  then alert_error "This subject already exists" w
  else
    let created := length (heap w) in
    let w1 :=
      set_heap
        (heap w ++ [Subject.mk (trim (newSubjectName w)) (of_Z 0) (of_Z 0)])
        w in
    let newData :=
      mkAttendance (name (attendanceData w))
        (subjects (attendanceData w) ++ [created]) in
    let w2 := setAttendanceData newData w1 in
    let w3 := setIsAddModalVisible false (setNewSubjectName [] w2) in
    saveData stringify (attendanceData w) newData setItem_ok w3.

(** [updateAttendance], App.js lines 126-136.  The spread copies the
    array, not the subject objects: [newSubjects[index]] is the object
    the current state refers to, and it is updated in place. *)
Definition updateAttendance (index : Z) (isPresent : bool)
    (setItem_ok : bool) (w : World Profile) : completion :=
  let newSubjects := subjects (attendanceData w) in
  match Array_get newSubjects index with
  | None => Uncaught TypeError w
  | Some subject =>
      let s := heap w !!! subject in
      let s' :=
        if isPresent
        then Subject.mk (Subject.name s)
               (add (Subject.present s) (of_Z 1)) (Subject.absent s)
        else Subject.mk (Subject.name s)
               (Subject.present s) (add (Subject.absent s) (of_Z 1)) in
      let w1 := set_heap (<[subject := s']> (heap w)) w in
      let newData := mkAttendance (name (attendanceData w)) newSubjects in
      let w2 := setAttendanceData newData w1 in
      Returned (saveData stringify (attendanceData w) newData setItem_ok w2)
  end.

(** [deleteSubject], App.js lines 138-156: the confirmation dialog, then
    the [onPress] of the button the user chose. *)
Definition deleteSubject (index : Z) (pressed : button) (setItem_ok : bool)
    (w : World Profile) : World Profile :=
  let w0 :=
    call
      (Alert (lit "Delete Subject")
         (lit "Are you sure you want to delete this subject? This action cannot be undone."))
      w in
  match pressed with
  | Cancel => w0
  | Delete =>
      let newSubjects :=
        Array_filter (fun _ i => negb (i =? index)%Z)
          (subjects (attendanceData w)) in
      let newData := mkAttendance (name (attendanceData w)) newSubjects in
      let w1 := setAttendanceData newData w0 in
      saveData stringify (attendanceData w) newData setItem_ok w1
  end.

(** The text [csvContent] of [exportToCSV], App.js lines 164-173. *)
Definition csvContent (subjects : list Subject.t) : jsstring :=
  let headers :=
    lit "Subject,Classes Attended,Classes Missed,Attendance Percentage"
      ++ [10%N] in
  let rows :=
    join [10%N]
      (List.map
         (fun subject =>
            Subject.name subject ++ lit ","
              ++ Number_toString (Subject.present subject) ++ lit ","
              ++ Number_toString (Subject.absent subject) ++ lit ","
              ++ calculatePercentage (Subject.present subject)
                   (Subject.absent subject)
              ++ lit "%")
         subjects) in
  headers ++ rows.

(** [exportToCSV], App.js lines 158-187. *)
Definition exportToCSV (env : ExportEnv) (w : World Profile)
  : World Profile :=
  if (length (subjects (attendanceData w)) =? 0)%nat then
    alert_error "No data to export" w
  else
    let content := csvContent (subjects (snapshot (heap w) (attendanceData w))) in
    let fileUri :=
      documentDirectory env ++ lit "attendance_"
        ++ Number_toString (now env) ++ lit ".csv" in
    let w1 := call (WriteAsString fileUri content) w in
    if negb (writeAsStringAsync_ok env) then
      alert_error "Failed to export CSV file" w1
    else
      match isAvailableAsync env with
      | None => alert_error "Failed to export CSV file" w1
      | Some false => alert_error "Sharing is not available on this device" w1
      | Some true =>
          let w2 := call (Share fileUri) w1 in
          if shareAsync_ok env then w2
          else alert_error "Failed to export CSV file" w2
      end.

(** [filteredSubjects], App.js lines 189-191. *)
Definition filteredSubjects (w : World Profile) : list loc :=
  List.filter
    (fun subject =>
       includes (toLowerCase (Subject.name (heap w !!! subject)))
         (toLowerCase (searchQuery w)))
    (subjects (attendanceData w)).

End Store.

(** ** An engine to run the model on examples

    Exact on ASCII text and on profiles whose counters are integers below
    [2^53]: ASCII lower-casing, and JSON as [JSON.stringify] writes a
    profile (QuoteJSONString escapes) with a reader of those texts.
    The other notations of numbers are a placeholder that no example
    reaches. *)

Module Reference.

Definition hex (d : N) : N := if (d <? 10)%N then (48 + d)%N else (87 + d)%N.

Definition unicode_escape (c : N) : jsstring :=
  lit "\u" ++ [hex (c / 4096 mod 16); hex (c / 256 mod 16);
               hex (c / 16 mod 16); hex (c mod 16)]%N.

Definition is_high (c : N) : bool := ((55296 <=? c) && (c <=? 56319))%N.
Definition is_low (c : N) : bool := ((56320 <=? c) && (c <=? 57343))%N.

(** The body of QuoteJSONString. *)
Fixpoint quote_body (s : jsstring) : jsstring :=
  match s with
  | [] => []
  | c :: rest =>
      if (c =? 8)%N then lit "\b" ++ quote_body rest
      else if (c =? 9)%N then lit "\t" ++ quote_body rest
      else if (c =? 10)%N then lit "\n" ++ quote_body rest
      else if (c =? 12)%N then lit "\f" ++ quote_body rest
      else if (c =? 13)%N then lit "\r" ++ quote_body rest
      else if (c =? 34)%N then [92; 34]%N ++ quote_body rest
      else if (c =? 92)%N then [92; 92]%N ++ quote_body rest
      else if (c <? 32)%N then unicode_escape c ++ quote_body rest
      else if is_high c then
        match rest with
        | c' :: rest' =>
            if is_low c' then c :: c' :: quote_body rest'
            else unicode_escape c ++ quote_body rest
        | [] => unicode_escape c
        end
      else if is_low c then unicode_escape c ++ quote_body rest
      else c :: quote_body rest
  end.

Definition quote (s : jsstring) : jsstring := [34%N] ++ quote_body s ++ [34%N].

Definition number_text (x : number) : jsstring :=
  match x with
  | Finite m e =>
      let '(a, b) := frac m e in
      if ((a mod b =? 0) && (a / b <? 2 ^ 53))%Z then decimal (a / b)
      else []
  | _ => lit "null"
  end.

Definition subject_text (s : Subject.t) : jsstring :=
  lit "{" ++ quote (lit "name") ++ lit ":" ++ quote (Subject.name s)
    ++ lit "," ++ quote (lit "present") ++ lit ":"
    ++ number_text (Subject.present s)
    ++ lit "," ++ quote (lit "absent") ++ lit ":"
    ++ number_text (Subject.absent s) ++ lit "}".

Definition stringify (d : attendance Subject.t) : jsstring :=
  lit "{" ++ quote (lit "name") ++ lit ":" ++ quote (name d)
    ++ lit "," ++ quote (lit "subjects") ++ lit ":["
    ++ join (lit ",") (List.map subject_text (subjects d)) ++ lit "]}".

(** Readers: each returns what it read and the rest of the text. *)

Fixpoint expect (t s : jsstring) : option jsstring :=
  match t, s with
  | [], _ => Some s
  | c :: t', c' :: s' => if (c =? c')%N then expect t' s' else None
  | _ :: _, [] => None
  end.

Definition unhex (c : N) : option N :=
  if ((48 <=? c) && (c <=? 57))%N then Some (c - 48)%N
  else if ((97 <=? c) && (c <=? 102))%N then Some (c - 87)%N
  else if ((65 <=? c) && (c <=? 70))%N then Some (c - 55)%N
  else None.

(** The code unit that the escape [\c] stands for. *)
Definition unescape (c : N) : option N :=
  if (c =? 34)%N || (c =? 92)%N || (c =? 47)%N then Some c
  else if (c =? 98)%N then Some 8%N
  else if (c =? 116)%N then Some 9%N
  else if (c =? 110)%N then Some 10%N
  else if (c =? 102)%N then Some 12%N
  else if (c =? 114)%N then Some 13%N
  else None.

Fixpoint read_string_body (s : jsstring) : option (jsstring * jsstring) :=
  match s with
  | [] => None
  | c :: rest =>
      if (c =? 34)%N then Some ([], rest)
      else if (c =? 92)%N then
        match rest with
        | [] => None
        | c1 :: rest1 =>
            if (c1 =? 117)%N then
              match rest1 with
              | h3 :: h2 :: h1 :: h0 :: rest2 =>
                  match unhex h3, unhex h2, unhex h1, unhex h0,
                        read_string_body rest2 with
                  | Some d3, Some d2, Some d1, Some d0, Some (body, rest') =>
                      Some ((d3 * 4096 + d2 * 256 + d1 * 16 + d0)%N :: body,
                            rest')
                  | _, _, _, _, _ => None
                  end
              | _ => None
              end
            else
              match unescape c1, read_string_body rest1 with
              | Some u, Some (body, rest') => Some (u :: body, rest')
              | _, _ => None
              end
        end
      else if (c <? 32)%N then None
      else
        match read_string_body rest with
        | Some (body, rest') => Some (c :: body, rest')
        | None => None
        end
  end.

Definition read_string (s : jsstring) : option (jsstring * jsstring) :=
  match s with
  | 34%N :: rest => read_string_body rest
  | _ => None
  end.

Definition read_number (s : jsstring) : option (number * jsstring) :=
  match s with
  | c :: _ =>
      if is_digit c
      then let '(n, rest) := read_digits 0 s in Some (of_Z n, rest)
      else None
  | [] => None
  end.

Definition read_subject (s : jsstring) : option (Subject.t * jsstring) :=
  s ← expect (lit "{" ++ quote (lit "name") ++ lit ":") s;
  '(n, s) ← read_string s;
  s ← expect (lit "," ++ quote (lit "present") ++ lit ":") s;
  '(p, s) ← read_number s;
  s ← expect (lit "," ++ quote (lit "absent") ++ lit ":") s;
  '(a, s) ← read_number s;
  s ← expect (lit "}") s;
  Some (Subject.mk n p a, s).

Fixpoint read_subjects (fuel : nat) (s : jsstring)
  : option (list Subject.t * jsstring) :=
  match fuel with
  | O => None
  | S fuel =>
      '(x, s) ← read_subject s;
      match s with
      | 44%N :: s' =>
          '(xs, s'') ← read_subjects fuel s';
          Some (x :: xs, s'')
      | _ => Some ([x], s)
      end
  end.

Definition parse (text : jsstring) : option (attendance Subject.t) :=
  s ← expect (lit "{" ++ quote (lit "name") ++ lit ":") text;
  '(n, s) ← read_string s;
  s ← expect (lit "," ++ quote (lit "subjects") ++ lit ":[") s;
  '(xs, s) ←
    match s with
    | 93%N :: _ => Some ([], s)
    | _ => read_subjects (length s) s
    end;
  s ← expect (lit "]}") s;
  match s with
  | [] => Some (mkAttendance n xs)
  | _ => None
  end.

Definition engine : Engine := {|
  toLowerCase := List.map lower_ascii;
  other_notation := fun _ _ => [];
  JSON_stringify := stringify;
  JSON_parse := parse;
|}.

End Reference.

(** ** Worlds and predicates used in the statements *)

(** A handler rejects its input the way the program reports every
    expected failure: it returns after [Alert.alert('Error', message)]
    and leaves everything else as it was. *)
Definition rejects (c : completion) (w : World Profile) : Prop :=
  exists message, c = Returned (call (Alert (lit "Error") message) w).

(** Every reference of the profile is to an allocated subject object. *)
Definition well_formed (w : World Profile) : Prop :=
  Forall (fun l => l < length (heap w)) (subjects (attendanceData w)).

(** The new subject name is taken: some existing subject's name,
    lower-cased, equals the trimmed and lower-cased new name. *)
Definition taken {engine : Engine} (w : World Profile) : Prop :=
  exists l,
    In l (subjects (attendanceData w))
    /\ toLowerCase (Subject.name (heap w !!! l))
       = toLowerCase (trim (newSubjectName w)).

(** [kept] is the subsequence of [l] made of exactly the elements that
    satisfy [P], in the order of [l]. *)
Inductive selects {A} (P : A -> Prop) : list A -> list A -> Prop :=
| selects_nil : selects P [] []
| selects_keep x l kept :
    P x -> selects P l kept -> selects P (x :: l) (x :: kept)
| selects_drop x l kept :
    ~ P x -> selects P l kept -> selects P (x :: l) kept.

(** [t] is a substring of [s]. *)
Definition contains (s t : jsstring) : Prop :=
  exists before after, s = before ++ t ++ after.

(** The name of the subject at [l] contains the search query, both
    lower-cased. *)
Definition name_matches {engine : Engine} (w : World Profile) (l : loc)
  : Prop :=
  contains (toLowerCase (Subject.name (heap w !!! l)))
    (toLowerCase (searchQuery w)).

(** The header line and the line of one subject in the export. *)
Definition csv_header : jsstring :=
  lit "Subject,Classes Attended,Classes Missed,Attendance Percentage".

Definition csv_line {engine : Engine} (s : Subject.t) : jsstring :=
  Subject.name s ++ lit "," ++ Number_toString (Subject.present s)
    ++ lit "," ++ Number_toString (Subject.absent s)
    ++ lit "," ++ calculatePercentage (Subject.present s) (Subject.absent s)
    ++ lit "%".

(** JSON values of any shape, as [JSON.parse] can return them. *)
Inductive json :=
| JNull
| JBoolean (b : bool)
| JNumber (x : number)
| JString (s : jsstring)
| JArray (items : list json)
| JObject (members : list (jsstring * json)).

(** An engine's [JSON.parse] for one text only: it reads [text] as [v]
    and throws on everything else.  It creates no subject object. *)
Definition parses_as {V} (text : jsstring) (v : V)
  : jsstring -> list Subject.t -> option (V * list Subject.t) :=
  fun t h => if jsstring_eqb t text then Some (v, h) else None.

(** [object[key]] for an object that [JSON.parse] has made: the value of
    the last member of that name, [None] ([undefined]) when there is
    none. *)
Fixpoint member (key : jsstring) (members : list (jsstring * json))
  : option json :=
  match members with
  | [] => None
  | (k, v) :: rest =>
      match member key rest with
      | Some v' => Some v'
      | None => if jsstring_eqb k key then Some v else None
      end
  end.

(** Whether lines 189-191 throw with [v] in [attendanceData], as every
    render runs them: [v.subjects] has to be an array (on [null] the
    access throws, on every other value without the member it is
    [undefined], and [undefined.filter], like the [filter] of a value
    that is no array, cannot be called), and the [name] of every element
    of it has to be a string (any other [subject.name.toLowerCase]
    cannot be reached or cannot be called). *)
Definition filteredSubjects_throws (v : json) : bool :=
  match v with
  | JObject members =>
      match member (lit "subjects") members with
      | Some (JArray items) =>
          existsb
            (fun subject =>
               match subject with
               | JObject fields =>
                   match member (lit "name") fields with
                   | Some (JString _) => false
                   | _ => true
                   end
               | _ => true
               end)
            items
      | _ => true
      end
  | _ => true
  end.

(** The two kinds of root of React. *)
Inductive root := LegacyRoot | ConcurrentRoot.

(** Whether the call of line 40 throws on the parsed value [v]: the
    render it starts shows the loading view, [isLoading] being true, so
    it throws where lines 189-191 do. *)
Definition setAttendanceData_throws_in (r : root) (v : json) : bool :=
  match r with
  | LegacyRoot => filteredSubjects_throws v
  | ConcurrentRoot => false
  end.

(** A profile as a JSON value. *)
Definition json_of (d : attendance Subject.t) : json :=
  JObject
    [(lit "name", JString (name d));
     (lit "subjects",
      JArray
        (List.map
           (fun s =>
              JObject
                [(lit "name", JString (Subject.name s));
                 (lit "present", JNumber (Subject.present s));
                 (lit "absent", JNumber (Subject.absent s))])
           (subjects d)))].

(** The state of [useState] before the first render's effects, the
    profile being a JSON value. *)
Definition initial_json (stored : option jsstring) : World json :=
  mkWorld [] (json_of (mkAttendance [] [])) [] false [] false true stored [].

(** The real number a finite number stands for. *)
Definition value (x : number) : R :=
  match x with
  | Finite m e => (IZR m * powerRZ 2 e)%R
  | _ => 0%R
  end.

(** A finite binary64 number that is not negative. *)
Definition finite (x : number) : Prop :=
  match x with
  | Finite m e => (0 <= m <= 2 ^ 53 /\ -1074 <= e)%Z
  | _ => False
  end.

(** [Number.MAX_VALUE]. *)
Definition MAX_VALUE : Z := (2 ^ 53 - 1) * 2 ^ 971.

(** [n] hundredths is a two-decimal value nearest to the exact
    percentage [100 * present / (present + absent)]; on a tie both
    neighbours are. *)
Definition nearest_hundredths (present absent n : Z) : Prop :=
  (2 * Z.abs (n * (present + absent) - 10000 * present)
   <= present + absent)%Z.

(** The same number in the Standard Library's specification of IEEE 754
    binary64 ([prec = 53], [emax = 1024]). *)
Definition to_spec_float (x : number) : spec_float :=
  match x with
  | Finite m e => binary_normalize 53 1024 m e false
  | Infinity => S754_infinity false
  | NaN => S754_nan
  end.

(** [add], [div] and [mul] on the integers [p] and [q] give what
    [SFadd], [SFdiv] and [SFmul] of the Standard Library give. *)
Definition agrees_with_SpecFloat (p q : Z) : Prop :=
  let x := of_Z p in
  let y := of_Z q in
  to_spec_float (add x y)
    = SFadd 53 1024 (to_spec_float x) (to_spec_float y)
  /\ to_spec_float (div x y)
    = SFdiv 53 1024 (to_spec_float x) (to_spec_float y)
  /\ to_spec_float (mul (div x y) (of_Z 100))
    = SFmul 53 1024
        (SFdiv 53 1024 (to_spec_float x) (to_spec_float y))
        (to_spec_float (of_Z 100)).

(** A string of JavaScript: every element is a 16-bit code unit. *)
Definition wf_string (s : jsstring) : Prop :=
  Forall (fun c => (c < 65536)%N) s.

(** A counter of the data model: a non-negative integer, here below
    [2^53], where every integer is a number and is written with all its
    digits. *)
Definition counter (x : number) : Prop :=
  exists n, (0 <= n < 2 ^ 53)%Z /\ x = of_Z n.

Definition valid_subject (s : Subject.t) : Prop :=
  wf_string (Subject.name s)
  /\ counter (Subject.present s) /\ counter (Subject.absent s).

(** A valid profile: a non-empty trimmed name, subjects with string
    names and non-negative integer counters. *)
Definition valid_profile (d : attendance Subject.t) : Prop :=
  name d <> [] /\ trim (name d) = name d /\ wf_string (name d)
  /\ Forall valid_subject (subjects d).

(** The text [rest] does not go on with a digit. *)
Definition stops (rest : jsstring) : Prop :=
  match rest with
  | c :: _ => is_digit c = false
  | [] => True
  end.

(** A stored text that is JSON of the profile shape and breaks the
    invariants of the data model: the profile name is empty and the two
    subject names are untrimmed and equal without regard to case. *)
Definition invalid_text : jsstring :=
  Reference.stringify
    (mkAttendance []
       [Subject.mk (lit " Math") (of_Z 0) (of_Z 0);
        Subject.mk (lit " math") (of_Z 0) (of_Z 0)]).

(** A ready profile over the subjects [l], durably saved as it is. *)
Definition ready (user : jsstring) (l : list Subject.t) : World Profile :=
  mkWorld l (mkAttendance user (seq 0 (length l))) [] false [] false false
    (Some (Reference.stringify (mkAttendance user l))) [].

Definition math (present absent : Z) : Subject.t :=
  Subject.mk (lit "Math") (of_Z present) (of_Z absent).

(** ** The name prompt, the totals, the rows and a restart *)

(** The cell [tempName] of the name prompt (App.js line 31) beside the
    cells of [World]. *)
Record Prompt := mkPrompt {
  world : World Profile;
  tempName : jsstring;
}.

(** The three values [calculateTotalAttendance] returns. *)
Module Total.

Record t := mk { present : number; total : number; percentage : jsstring }.

End Total.

Section Screen.
Context {engine : Engine}.

(** [handleNameSubmit], App.js lines 67-78.  The promise of [saveData]
    settles after the handler has returned, so the two setters that
    follow the call come first; they write other cells than [saveData]
    does. *)
Definition handleNameSubmit (setItem_ok : bool) (p : Prompt) : Prompt :=
  if bool_decide (trim (tempName p) = []) then
    mkPrompt (alert_error "Please enter a valid name" (world p)) (tempName p)
  else
    let w := world p in
    let newData :=
      mkAttendance (trim (tempName p)) (subjects (attendanceData w)) in
    let w1 := setAttendanceData newData w in
    let w2 := setShowNamePrompt false w1 in
    mkPrompt (saveData stringify (attendanceData w) newData setItem_ok w2) [].

(** [calculateTotalAttendance], App.js lines 88-98. *)
Definition calculateTotalAttendance (w : World Profile) : Total.t :=
  let subjects := subjects (snapshot (heap w) (attendanceData w)) in
  let totalPresent :=
    fold_left (fun sum subject => add sum (Subject.present subject))
      subjects (of_Z 0) in
  let totalAbsent :=
    fold_left (fun sum subject => add sum (Subject.absent subject))
      subjects (of_Z 0) in
  let totalClasses := add totalPresent totalAbsent in
  Total.mk totalPresent totalClasses
    (calculatePercentage totalPresent totalAbsent).

(** The rows of the list, App.js lines 306-336: one row for each element
    of [filteredSubjects], and the position [index] of the row in that
    list is what its buttons pass on.  [None]: the screen has no row
    at [index]. *)
Definition row_updateAttendance (index : nat) (isPresent : bool)
    (setItem_ok : bool) (w : World Profile) : option completion :=
  match filteredSubjects w !! index with
  | Some _ => Some (updateAttendance (Z.of_nat index) isPresent setItem_ok w)
  | None => None
  end.

Definition row_deleteSubject (index : nat) (pressed : button)
    (setItem_ok : bool) (w : World Profile) : option (World Profile) :=
  match filteredSubjects w !! index with
  | Some _ => Some (deleteSubject (Z.of_nat index) pressed setItem_ok w)
  | None => None
  end.

(** [k] presses of the same button with the same [index], every save
    going through. *)
Definition presses (k : nat) (index : Z) (isPresent : bool)
    (w : World Profile) : World Profile :=
  Nat.iter k (fun w => world_of (updateAttendance index isPresent true w)) w.

(** The app is closed and opened again: the state of a first render over
    the AsyncStorage item as it is, then the effect of App.js lines 52-54
    that runs [loadData]. *)
Definition restart (getItem_ok : bool) (w : World Profile) : World Profile :=
  loadData parse getItem_ok (initial (storage w)).

(** The subjects of the profile are distinct objects with non-empty
    trimmed names, no two of them equal without regard to case. *)
Definition distinct_names (w : World Profile) : Prop :=
  well_formed w
  /\ NoDup (subjects (attendanceData w))
  /\ Forall
       (fun l =>
          Subject.name (heap w !!! l) <> []
          /\ trim (Subject.name (heap w !!! l)) = Subject.name (heap w !!! l))
       (subjects (attendanceData w))
  /\ forall l l',
       In l (subjects (attendanceData w)) ->
       In l' (subjects (attendanceData w)) ->
       toLowerCase (Subject.name (heap w !!! l))
       = toLowerCase (Subject.name (heap w !!! l')) ->
       l = l'.

End Screen.

(** The sum of a list of integers. *)
Definition sum_of (l : list Z) : Z := fold_right Z.add 0%Z l.

(** The subject object with the given name and integer counters. *)
Definition subject_of (entry : jsstring * (Z * Z)) : Subject.t :=
  Subject.mk (fst entry) (of_Z (fst (snd entry))) (of_Z (snd (snd entry))).

(** [setSearchQuery], the [onChangeText] of the search field. *)
Definition setSearchQuery (s : jsstring) (w : World Profile) : World Profile :=
  mkWorld (heap w) (attendanceData w) s (isAddModalVisible w)
    (newSubjectName w) (showNamePrompt w) (isLoading w) (storage w) (effects w).

(** What the screen shows of the profile. *)
Definition shown (w : World Profile) : attendance Subject.t :=
  snapshot (heap w) (attendanceData w).

(** How many times the code unit [c] occurs in [s]. *)
Definition occurrences (c : N) (s : jsstring) : nat :=
  length (List.filter (N.eqb c) s).

(** One more subject for the examples. *)
Definition art (present absent : Z) : Subject.t :=
  Subject.mk (lit "Art") (of_Z present) (of_Z absent).

(** The subject object after [.present += 1] or [.absent += 1]. *)
Definition recorded (isPresent : bool) (s : Subject.t) : Subject.t :=
  if isPresent
  then Subject.mk (Subject.name s) (add (Subject.present s) (of_Z 1))
         (Subject.absent s)
  else Subject.mk (Subject.name s) (Subject.present s)
         (add (Subject.absent s) (of_Z 1)).

(** * Properties *)

(** ** Arrays *)

Lemma Array_get_in_range {A} (l : list A) (index : Z) :
  (0 <= index < Z.of_nat (length l))%Z ->
  exists x, Array_get l index = Some x /\ l !! Z.to_nat index = Some x.
Proof.
  intros Hi. unfold Array_get.
  destruct (Z.ltb_spec index 0) as [Hneg|_]; [lia|].
  destruct (lookup_lt_is_Some_2 l (Z.to_nat index)) as [x Hx]; [lia|].
  exists x. rewrite Hx. auto.
Qed.

Lemma Array_get_out_of_range {A} (l : list A) (index : Z) :
  (index < 0 \/ Z.of_nat (length l) <= index)%Z ->
  Array_get l index = None.
Proof.
  intros Hi. unfold Array_get.
  destruct (Z.ltb_spec index 0) as [Hneg|Hpos]; [reflexivity|].
  apply lookup_ge_None_2. lia.
Qed.

Lemma filter_from_skip {A} (index : Z) (l : list A) (k : Z) :
  (index < k)%Z ->
  filter_from (fun _ i => negb (i =? index)%Z) k l = l.
Proof.
  revert k. induction l as [|x l IH]; intros k Hk; simpl; [reflexivity|].
  destruct (Z.eqb_spec k index) as [->|_]; [lia|].
  simpl. rewrite IH by lia. reflexivity.
Qed.

Lemma filter_from_delete {A} (index : Z) (l : list A) (k : Z) :
  (k <= index)%Z ->
  filter_from (fun _ i => negb (i =? index)%Z) k l
  = take (Z.to_nat (index - k)) l ++ drop (S (Z.to_nat (index - k))) l.
Proof.
  revert k. induction l as [|x l IH]; intros k Hk; simpl.
  - rewrite take_nil. reflexivity.
  - destruct (Z.eqb_spec k index) as [->|Hne]; simpl.
    + rewrite Z.sub_diag. simpl. rewrite drop_0.
      apply filter_from_skip. lia.
    + rewrite IH by lia.
      replace (Z.to_nat (index - k)) with (S (Z.to_nat (index - (k + 1))))
        by lia.
      reflexivity.
Qed.

Lemma Array_filter_delete {A} (index : Z) (l : list A) :
  (0 <= index)%Z ->
  Array_filter (fun _ i => negb (i =? index)%Z) l
  = take (Z.to_nat index) l ++ drop (S (Z.to_nat index)) l.
Proof.
  intros Hi. unfold Array_filter. rewrite filter_from_delete by lia.
  rewrite Z.sub_0_r. reflexivity.
Qed.

(** ** recordAttendance: [updateAttendance] *)

Section UpdateAttendance.
Context {engine : Engine}.

(** C2, as the code has it: for every index outside the bounds of the
    subjects list [updateAttendance] makes no bounds check; reading
    [.present] of [undefined] raises a [TypeError] that nothing catches,
    before any state is set: the profile, the subject objects, the stored
    item and the alerts are all left as they were. *)
Theorem updateAttendance_out_of_range (index : Z) (isPresent ok : bool)
    (w : World Profile) :
  (index < 0 \/ Z.of_nat (length (subjects (attendanceData w))) <= index)%Z ->
  updateAttendance index isPresent ok w = Uncaught TypeError w.
Proof.
  intros Hi. unfold updateAttendance.
  rewrite Array_get_out_of_range by exact Hi. reflexivity.
Qed.

(** What an in-range [updateAttendance] does when the save fails: the
    state is set back to the very object it held before, and the subject
    object that this state refers to keeps its incremented counter. *)
Lemma updateAttendance_failed_save (index : Z) (isPresent : bool)
    (w : World Profile) (l : loc) :
  subjects (attendanceData w) !! Z.to_nat index = Some l ->
  (0 <= index)%Z ->
  exists w',
    updateAttendance index isPresent false w = Returned w'
    /\ attendanceData w' = attendanceData w
    /\ storage w' = storage w
    /\ effects w' = effects w
         ++ [Alert (lit "Error") (lit "Failed to save data. Please try again.")]
    /\ heap w' =
         <[l := if isPresent
                then Subject.mk (Subject.name (heap w !!! l))
                       (add (Subject.present (heap w !!! l)) (of_Z 1))
                       (Subject.absent (heap w !!! l))
                else Subject.mk (Subject.name (heap w !!! l))
                       (Subject.present (heap w !!! l))
                       (add (Subject.absent (heap w !!! l)) (of_Z 1))]>
           (heap w).
Proof.
  intros Hl Hi. unfold updateAttendance, Array_get.
  destruct (Z.ltb_spec index 0) as [Hneg|_]; [lia|].
  rewrite Hl. eexists. split; [reflexivity|].
  destruct (attendanceData w) as [n subs]. simpl. auto.
Qed.

End UpdateAttendance.

Lemma updateAttendance_out_of_range_witness :
  @updateAttendance Reference.engine 1 true true (ready (lit "A") [math 0 0])
  = Uncaught TypeError (ready (lit "A") [math 0 0]).
Proof.
  apply (@updateAttendance_out_of_range Reference.engine).
  right. simpl. lia.
Defined.

(** C2, as stated, fails: on a list of one subject, index 1 is not
    rejected with an error report; the call does not return at all. *)
Lemma updateAttendance_no_IndexError :
  ~ rejects
      (@updateAttendance Reference.engine 1 true true
         (ready (lit "A") [math 0 0]))
      (ready (lit "A") [math 0 0]).
Proof.
  intros [message H]. vm_compute in H. discriminate H.
Qed.

(** C1 fails on the code: one subject with durable counters 0/0, one
    press of Present, and a save that fails.  The alert is raised and the
    stored item is still the one with [present = 0], but the profile the
    program shows after the revert has [present = 1]. *)
Theorem failed_save_keeps_increment :
  let w := ready (lit "A") [math 0 0] in
  let w' := world_of (@updateAttendance Reference.engine 0 true false w) in
  effects w'
    = [Alert (lit "Error") (lit "Failed to save data. Please try again.")]
  /\ storage w' = storage w
  /\ (storage w' ≫= Reference.parse)
       = Some (mkAttendance (lit "A") [math 0 0])
  /\ snapshot (heap w') (attendanceData w')
       = mkAttendance (lit "A") [math 1 0].
Proof.
  vm_compute. auto.
Qed.

(** ** deleteSubject *)

Section DeleteSubject.
Context {engine : Engine}.

(** C8: for an in-range index, once the user has confirmed and the save
    has gone through, the subjects list is the old one without its
    element at [index]: one shorter, the elements before [index] where
    they were, the elements after it moved down by one, and no subject
    object touched. *)
Theorem deleteSubject_removes_index (index : Z) (w : World Profile) :
  (0 <= index < Z.of_nat (length (subjects (attendanceData w))))%Z ->
  let i := Z.to_nat index in
  let old := subjects (attendanceData w) in
  let w' := deleteSubject index Delete true w in
  let new := subjects (attendanceData w') in
  new = take i old ++ drop (S i) old
  /\ S (length new) = length old
  /\ (forall j, j < i -> new !! j = old !! j)
  /\ (forall j, i <= j -> new !! j = old !! S j)
  /\ heap w' = heap w
  /\ name (attendanceData w') = name (attendanceData w)
  /\ subjects (snapshot (heap w') (attendanceData w'))
     = take i (subjects (snapshot (heap w) (attendanceData w)))
       ++ drop (S i) (subjects (snapshot (heap w) (attendanceData w))).
Proof.
  intros Hi i old w' new.
  assert (Hnew : new = take i old ++ drop (S i) old).
  { subst new w'. unfold deleteSubject, saveData. simpl.
    apply Array_filter_delete. lia. }
  assert (Hlen : i < length old) by (subst i old; lia).
  split; [exact Hnew|].
  split.
  { rewrite Hnew, length_app, length_take, length_drop. lia. }
  split.
  { intros j Hj. rewrite Hnew, lookup_app_l.
    - apply lookup_take_lt. exact Hj.
    - rewrite length_take. lia. }
  split.
  { intros j Hj. rewrite Hnew, lookup_app_r.
    - rewrite length_take, lookup_drop.
      f_equal. lia.
    - rewrite length_take. lia. }
  split; [reflexivity|].
  split; [reflexivity|].
  change (List.map (fun l => heap w !!! l) new
          = take i (List.map (fun l => heap w !!! l) old)
            ++ drop (S i) (List.map (fun l => heap w !!! l) old)).
  rewrite Hnew, map_app.
  change (@List.map loc Subject.t) with (@fmap list _ loc Subject.t).
  rewrite fmap_take, fmap_drop. reflexivity.
Qed.

(** Cancel changes nothing but the log of the dialog. *)
Lemma deleteSubject_cancel (index : Z) (ok : bool) (w : World Profile) :
  attendanceData (deleteSubject index Cancel ok w) = attendanceData w
  /\ heap (deleteSubject index Cancel ok w) = heap w
  /\ storage (deleteSubject index Cancel ok w) = storage w.
Proof. auto. Qed.

(** X21: where no subject object is updated in place the revert of
    [saveData] does restore the profile: a delete whose save fails
    leaves the profile as it was and reports the failure. *)
Lemma deleteSubject_failed_save (index : Z) (w : World Profile) :
  let w' := deleteSubject index Delete false w in
  snapshot (heap w') (attendanceData w')
    = snapshot (heap w) (attendanceData w)
  /\ storage w' = storage w
  /\ last (effects w')
     = Some (Alert (lit "Error")
               (lit "Failed to save data. Please try again.")).
Proof.
  simpl. split; [reflexivity|]. split; [reflexivity|].
  rewrite last_snoc. reflexivity.
Qed.

End DeleteSubject.

Lemma deleteSubject_removes_index_witness :
  subjects
    (attendanceData
       (@deleteSubject Reference.engine 1 Delete true
          (ready (lit "A") [math 1 0; math 2 0; math 3 0])))
  = [0; 2].
Proof.
  apply (@deleteSubject_removes_index Reference.engine 1
           (ready (lit "A") [math 1 0; math 2 0; math 3 0])).
  simpl. lia.
Defined.

(** ** addSubject: [handleAddSubject] *)

Lemma snapshot_map_app_l (h h' : list Subject.t) (refs : list loc) :
  Forall (fun l => l < length h) refs ->
  List.map (fun l => (h ++ h') !!! l) refs = List.map (fun l => h !!! l) refs.
Proof.
  induction 1 as [|l refs Hl _ IH]; simpl; [reflexivity|].
  rewrite IH, lookup_total_app_l by exact Hl. reflexivity.
Qed.

Lemma snapshot_map_seq (h l : list Subject.t) :
  List.map (fun r => (h ++ l) !!! r) (seq (length h) (length l)) = l.
Proof.
  revert h. induction l as [|x l IH]; intros h; simpl; [reflexivity|].
  rewrite list_lookup_total_middle by reflexivity. f_equal.
  specialize (IH (h ++ [x])).
  rewrite <- app_assoc, length_app, Nat.add_1_r in IH. exact IH.
Qed.

Section AddSubject.
Context {engine : Engine}.

Lemma duplicate_test (w : World Profile) :
  existsb
    (fun subject =>
       jsstring_eqb
         (toLowerCase (Subject.name (heap w !!! subject)))
         (toLowerCase (trim (newSubjectName w))))
    (subjects (attendanceData w)) = true
  <-> taken w.
Proof.
  rewrite existsb_exists. unfold taken, jsstring_eqb.
  split; intros [l [Hin Heq]]; exists l; split; try exact Hin.
  - apply bool_decide_eq_true in Heq. exact Heq.
  - apply bool_decide_eq_true. exact Heq.
Qed.

(** C4: [handleAddSubject] rejects the new name with an error alert, and
    changes nothing, when the trimmed name is empty or equals an existing
    subject's name without regard to case; otherwise (the save having
    gone through) it creates one subject object with the trimmed name
    and both counters 0 and puts it at the end of the list, all existing
    subjects and their order being left as they were. *)
Theorem handleAddSubject_spec (ok : bool) (w : World Profile) :
  let n := trim (newSubjectName w) in
  (n = [] \/ taken w -> rejects (Returned (handleAddSubject ok w)) w)
  /\ (n <> [] -> ~ taken w ->
      let w' := handleAddSubject true w in
      subjects (attendanceData w')
        = subjects (attendanceData w) ++ [length (heap w)]
      /\ heap w' = heap w ++ [Subject.mk n (of_Z 0) (of_Z 0)]
      /\ name (attendanceData w') = name (attendanceData w)
      /\ (well_formed w ->
          subjects (snapshot (heap w') (attendanceData w'))
          = subjects (snapshot (heap w) (attendanceData w))
            ++ [Subject.mk n (of_Z 0) (of_Z 0)]))
  /\ ((forall l, In l (subjects (attendanceData w)) ->
         trim (Subject.name (heap w !!! l)) = Subject.name (heap w !!! l)) ->
      (taken w <->
       exists l,
         In l (subjects (attendanceData w))
         /\ toLowerCase (trim (Subject.name (heap w !!! l)))
            = toLowerCase n)).
Proof.
  intros n. subst n. apply and_assoc. split.
  - unfold handleAddSubject.
    destruct (bool_decide_reflect (trim (newSubjectName w) = []))
      as [Hempty|Hfull].
    + split; [|intros Hne; contradiction].
      intros _. eexists. reflexivity.
    + destruct (existsb _ _) eqn:Hdup.
      * apply duplicate_test in Hdup. split; [|intros _ Hn; contradiction].
        intros _. eexists. reflexivity.
      * assert (Hfree : ~ taken w).
        { intros Ht. apply duplicate_test in Ht. congruence. }
        split; [intros [He|Ht]; contradiction|].
        intros _ _. simpl.
        split; [reflexivity|]. split; [reflexivity|]. split; [reflexivity|].
        intros Hwf. unfold snapshot; simpl.
        rewrite map_app. simpl.
        rewrite snapshot_map_app_l by exact Hwf.
        rewrite list_lookup_total_middle by reflexivity. reflexivity.
  - intros Htrim. unfold taken.
    split; intros (l & Hin & Heq); exists l; (split; [exact Hin|]).
    + rewrite Htrim by exact Hin. exact Heq.
    + rewrite <- Htrim by exact Hin. exact Heq.
Qed.

(** The same for an add whose save fails: the created subject object is
    not referred to by the restored profile. *)
Lemma handleAddSubject_failed_save (w : World Profile) :
  well_formed w ->
  let w' := handleAddSubject false w in
  snapshot (heap w') (attendanceData w')
    = snapshot (heap w) (attendanceData w)
  /\ storage w' = storage w.
Proof.
  intros Hwf. unfold handleAddSubject.
  destruct (bool_decide _); [split; reflexivity|].
  destruct (existsb _ _); [split; reflexivity|].
  simpl. split; [|reflexivity].
  unfold snapshot. simpl. f_equal.
  apply snapshot_map_app_l. exact Hwf.
Qed.

End AddSubject.

Lemma handleAddSubject_spec_witness :
  let w := setNewSubjectName (lit "  Physics ") (ready (lit "A") [math 3 1]) in
  subjects
    (snapshot (heap (@handleAddSubject Reference.engine true w))
       (attendanceData (@handleAddSubject Reference.engine true w)))
  = [math 3 1; Subject.mk (lit "Physics") (of_Z 0) (of_Z 0)].
Proof.
  intros w.
  apply (proj2 (@handleAddSubject_spec Reference.engine true w)).
  - vm_compute. discriminate.
  - intros [l [Hin Heq]]. vm_compute in Hin.
    destruct Hin as [<-|[]]. vm_compute in Heq. discriminate Heq.
  - repeat constructor.
Defined.

(** ** filterSubjects: [filteredSubjects] *)

Lemma startsWith_spec (s t : jsstring) :
  startsWith s t = true <-> exists after, s = t ++ after.
Proof.
  revert s. induction t as [|c t IH]; intros s; simpl.
  - split; [intros _; exists s; reflexivity | reflexivity].
  - destruct s as [|c' s].
    + split; [discriminate | intros [after H]; discriminate H].
    + rewrite andb_true_iff, N.eqb_eq, IH. split.
      * intros [-> [after ->]]. exists after. reflexivity.
      * intros [after H]. injection H as -> ->. split; [reflexivity|].
        exists after. reflexivity.
Qed.

Lemma includes_spec (s t : jsstring) : includes s t = true <-> contains s t.
Proof.
  unfold contains. induction s as [|c s IH].
  - simpl. rewrite orb_false_r, startsWith_spec. split.
    + intros [after H]. exists [], after. exact H.
    + intros [before [after H]]. destruct before; [exists after; exact H|].
      discriminate H.
  - cbn [includes]. rewrite orb_true_iff, startsWith_spec, IH. split.
    + intros [[after H]|[before [after H]]].
      * exists [], after. exact H.
      * exists (c :: before), after. rewrite H. reflexivity.
    + intros [before [after H]]. destruct before as [|c' before].
      * left. exists after. exact H.
      * right. injection H as _ H. exists before, after. exact H.
Qed.

Lemma includes_empty (s : jsstring) : includes s [] = true.
Proof. apply includes_spec. exists [], s. reflexivity. Qed.

Lemma filter_selects {A} (f : A -> bool) (P : A -> Prop) (l : list A) :
  (forall x, f x = true <-> P x) -> selects P l (List.filter f l).
Proof.
  intros Hf. induction l as [|x l IH]; simpl; [constructor|].
  destruct (f x) eqn:Hx.
  - apply selects_keep; [apply Hf; exact Hx | exact IH].
  - apply selects_drop; [|exact IH].
    intros HP. apply Hf in HP. congruence.
Qed.

Lemma filter_all {A} (f : A -> bool) (l : list A) :
  (forall x, f x = true) -> List.filter f l = l.
Proof.
  intros Hf. induction l as [|x l IH]; simpl; [reflexivity|].
  rewrite Hf, IH. reflexivity.
Qed.

Section FilterSubjects.
Context {engine : Engine}.

(** [toLowerCase] on ASCII text: the letters A-Z become a-z and nothing
    else changes. *)
Hypothesis toLowerCase_ascii :
  forall s, Forall is_ascii s -> toLowerCase s = List.map lower_ascii s.

(** C9: [filteredSubjects] is exactly the subsequence, in the original
    order, of the subjects whose lower-cased name contains the
    lower-cased query; it is a function of the state that changes
    nothing; with the empty query it is the whole list; and the subject
    named "Math" is selected by the query "ma". *)
Theorem filteredSubjects_spec (w : World Profile) :
  selects (name_matches w) (subjects (attendanceData w)) (filteredSubjects w)
  /\ (searchQuery w = [] ->
      filteredSubjects w = subjects (attendanceData w))
  /\ (forall l,
        searchQuery w = lit "ma" ->
        Subject.name (heap w !!! l) = lit "Math" ->
        In l (subjects (attendanceData w)) ->
        In l (filteredSubjects w)).
Proof.
  split; [|split].
  - apply filter_selects. intros l. apply includes_spec.
  - intros Hq. apply filter_all. intros l. rewrite Hq.
    rewrite (toLowerCase_ascii []) by constructor. apply includes_empty.
  - intros l Hq Hname Hin. apply filter_In. split; [exact Hin|].
    rewrite Hq, Hname.
    rewrite !toLowerCase_ascii by (repeat constructor).
    reflexivity.
Qed.

End FilterSubjects.

Lemma filteredSubjects_spec_witness :
  let w :=
    mkWorld [math 1 0; Subject.mk (lit "Art") (of_Z 0) (of_Z 0)]
      (mkAttendance (lit "A") [0; 1]) (lit "ma") false [] false false None []
  in
  selects (@name_matches Reference.engine w) [0; 1]
    (@filteredSubjects Reference.engine w)
  /\ @filteredSubjects Reference.engine w = [0].
Proof.
  intros w. split; [|reflexivity].
  apply (@filteredSubjects_spec Reference.engine (fun s _ => eq_refl) w).
Defined.

(** ** initialize: [loadData] *)

Section LoadAnyShape.
Context {V : Type}.
Variable parse : jsstring -> list Subject.t -> option (V * list Subject.t).

(** Where neither call throws, [loadData_under] is [loadData]. *)
Lemma loadData_under_no_throw (env : LoadEnv) (w : World V) :
  setAttendanceData_throws env = false ->
  setIsLoading_throws env = false ->
  loadData_under parse env w
  = Fulfilled (loadData parse (getItem_resolves env) w).
Proof.
  intros Hset Hfin. unfold loadData_under, loadData.
  rewrite Hset, Hfin. reflexivity.
Qed.

(** C10: whatever value [JSON.parse] returns for the stored text is
    passed to [setAttendanceData] as it is, with no check of its shape
    or of the invariants of the data model in between: it is the value
    of [attendanceData] after [loadData], so a property holds of the
    profile after [loadData] exactly when it held of the parsed value.
    Nothing is reported where the call of the setter returns; where it
    throws, as it does under a legacy root on a value that the render
    cannot show, the [catch] reports a failed load and the value is
    installed all the same.  The promise is rejected exactly when the
    setter of [finally] throws. *)
Theorem loadData_installs_parsed_value (env : LoadEnv) (w : World V)
    (text : jsstring) (v : V) (h : list Subject.t) :
  (forall h0, parse [] h0 = None) ->
  getItem_resolves env = true ->
  storage w = Some text ->
  parse text (heap w) = Some (v, h) ->
  let w' := state_of (loadData_under parse env w) in
  attendanceData w' = v
  /\ heap w' = h
  /\ showNamePrompt w' = showNamePrompt w
  /\ (setAttendanceData_throws env = false -> effects w' = effects w)
  /\ (setAttendanceData_throws env = true ->
      effects w'
      = effects w
        ++ [Alert (lit "Error") (lit "Failed to load attendance data")])
  /\ (setAttendanceData_throws env = false ->
      setIsLoading_throws env = false ->
      loadData_under parse env w = Fulfilled w' /\ isLoading w' = false)
  /\ (setIsLoading_throws env = true ->
      loadData_under parse env w = Rejected w')
  /\ forall P : V -> Prop, P (attendanceData w') <-> P v.
Proof.
  intros Hempty Hget Hstored Hparse w'.
  assert (Hw : attendanceData w' = v).
  { subst w'. unfold loadData_under. simpl. rewrite Hget, Hstored.
    destruct text as [|c text].
    - rewrite Hempty in Hparse. discriminate Hparse.
    - rewrite Hparse.
      destruct (setAttendanceData_throws env), (setIsLoading_throws env);
        reflexivity. }
  split; [exact Hw|].
  split; [|split; [|split; [|split; [|split; [|split]]]]].
  7: { intros P. rewrite Hw. reflexivity. }
  all: subst w'; unfold loadData_under; simpl; rewrite Hget, Hstored;
    (destruct text as [|c text];
     [rewrite Hempty in Hparse; discriminate Hparse|]);
    rewrite Hparse;
    destruct (setAttendanceData_throws env), (setIsLoading_throws env);
    simpl; try reflexivity; try (intros; discriminate);
    try (intros; split; reflexivity); intros; reflexivity.
Qed.

End LoadAnyShape.

(** A value of the profile shape passes lines 189-191, whatever its
    name, its subjects' names and its counters are. *)
Lemma profile_passes_filteredSubjects (d : attendance Subject.t) :
  filteredSubjects_throws (json_of d) = false.
Proof.
  unfold filteredSubjects_throws, json_of.
  change (member (lit "subjects") _)
    with (Some
            (JArray
               (List.map
                  (fun s =>
                     JObject
                       [(lit "name", JString (Subject.name s));
                        (lit "present", JNumber (Subject.present s));
                        (lit "absent", JNumber (Subject.absent s))])
                  (subjects d)))).
  induction (subjects d) as [|s l IH]; [reflexivity|].
  cbn [List.map existsb]. rewrite IH. reflexivity.
Qed.

(** Under a legacy root: the array [[null, true]] is put into
    [attendanceData] and the render of it throws, so that a failed load
    is reported; a value of the profile shape that breaks the invariants
    (empty profile name, two subject names untrimmed and equal without
    regard to case) is put there with no report. *)
Lemma loadData_installs_parsed_value_witness :
  let v := JArray [JNull; JBoolean true] in
  let w :=
    state_of
      (loadData_under (parses_as (lit "[null,true]") v)
         (Build_LoadEnv true (setAttendanceData_throws_in LegacyRoot v) false)
         (initial_json (Some (lit "[null,true]")))) in
  let d :=
    mkAttendance []
      [Subject.mk (lit " Math") (of_Z 0) (of_Z 0);
       Subject.mk (lit " math") (of_Z 0) (of_Z 0)] in
  let w' :=
    state_of
      (loadData_under (parses_as invalid_text (json_of d))
         (Build_LoadEnv true
            (setAttendanceData_throws_in LegacyRoot (json_of d)) false)
         (initial_json (Some invalid_text))) in
  (attendanceData w = v
   /\ effects w
      = [Alert (lit "Error") (lit "Failed to load attendance data")])
  /\ (attendanceData w' = json_of d /\ effects w' = []).
Proof.
  intros v w d w'. split.
  - destruct (loadData_installs_parsed_value
                (parses_as (lit "[null,true]") v)
                (Build_LoadEnv true
                   (setAttendanceData_throws_in LegacyRoot v) false)
                (initial_json (Some (lit "[null,true]")))
                (lit "[null,true]") v [])
      as (Hv & _ & _ & _ & Halert & _); try reflexivity.
    split; [exact Hv|]. apply Halert. reflexivity.
  - destruct (loadData_installs_parsed_value
                (parses_as invalid_text (json_of d))
                (Build_LoadEnv true
                   (setAttendanceData_throws_in LegacyRoot (json_of d)) false)
                (initial_json (Some invalid_text))
                invalid_text (json_of d) [])
      as (Hv & _ & _ & Hquiet & _); try reflexivity.
    split; [exact Hv|]. apply Hquiet.
    exact (profile_passes_filteredSubjects d).
Defined.

Section LoadProfile.
Context {engine : Engine}.

(** C6: run on the initial state, [loadData] puts the stored profile
    into the state when there is one that parses; with nothing stored it
    leaves the profile with the empty name and no subjects and raises
    the name prompt; when reading the store or parsing its text fails it
    raises the alert "Failed to load attendance data", leaves the same
    empty profile, and ends loading like every other run. *)
Theorem loadData_initial (stored : option jsstring) (getItem_ok : bool) :
  let w' := loadData parse getItem_ok (initial stored) in
  (forall text d,
     getItem_ok = true -> stored = Some text -> text <> [] ->
     JSON_parse text = Some d ->
     snapshot (heap w') (attendanceData w') = d
     /\ showNamePrompt w' = false
     /\ effects w' = []
     /\ isLoading w' = false)
  /\ (getItem_ok = true -> stored = None \/ stored = Some [] ->
     attendanceData w' = mkAttendance [] []
     /\ showNamePrompt w' = true
     /\ effects w' = []
     /\ isLoading w' = false)
  /\ (getItem_ok = false
      \/ (exists text, stored = Some text /\ text <> []
                       /\ JSON_parse text = None) ->
     attendanceData w' = mkAttendance [] []
     /\ effects w'
        = [Alert (lit "Error") (lit "Failed to load attendance data")]
     /\ heap w' = []
     /\ isLoading w' = false).
Proof.
  intros w'. subst w'. split; [|split].
  - intros text d -> -> Htext Hparse.
    destruct text as [|c text]; [contradiction|].
    unfold loadData, parse. simpl. rewrite Hparse. simpl.
    repeat split. unfold snapshot. destruct d as [n l]. simpl. f_equal.
    exact (snapshot_map_seq [] l).
  - intros -> [->| ->]; simpl; auto.
  - intros [->|(text & -> & Htext & Hparse)]; [simpl; auto|].
    destruct getItem_ok; [|simpl; auto].
    destruct text as [|c text]; [contradiction|].
    unfold loadData, parse. simpl. rewrite Hparse. simpl. auto.
Qed.

(** What the failing load does not do: it does not raise the name
    prompt. *)
Lemma loadData_failure_no_prompt (stored : option jsstring) :
  showNamePrompt (loadData parse false (initial stored)) = false.
Proof. reflexivity. Qed.

End LoadProfile.

(** No invariant of the data model is checked on the way in: the
    profile of [invalid_text] becomes the live profile, and no alert is
    raised. *)
Lemma loadData_installs_invalid_profile :
  let w := loadData (@parse Reference.engine) true
             (initial (Some invalid_text)) in
  snapshot (heap w) (attendanceData w)
    = mkAttendance []
        [Subject.mk (lit " Math") (of_Z 0) (of_Z 0);
         Subject.mk (lit " math") (of_Z 0) (of_Z 0)]
  /\ effects w = [] /\ showNamePrompt w = false.
Proof. vm_compute. auto. Qed.

Lemma loadData_initial_witness :
  showNamePrompt (loadData (@parse Reference.engine) true (initial None))
    = true
  /\ effects
       (loadData (@parse Reference.engine) true (initial (Some (lit "{"))))
     = [Alert (lit "Error") (lit "Failed to load attendance data")].
Proof.
  split.
  - apply (proj1 (proj2 (@loadData_initial Reference.engine None true)));
      auto.
  - apply (proj2 (proj2 (@loadData_initial Reference.engine
                           (Some (lit "{")) true))).
    right. exists (lit "{"). repeat split. discriminate.
Defined.


(** ** Binary64 arithmetic *)

Section Rounding.
Local Open Scope R_scope.

Lemma pw_pos (k : Z) : 0 < powerRZ 2 k.
Proof. apply powerRZ_lt. lra. Qed.

Lemma pw_add (a b : Z) : powerRZ 2 (a + b) = powerRZ 2 a * powerRZ 2 b.
Proof. apply powerRZ_add. lra. Qed.

Lemma pw_IZR (k : Z) : (0 <= k)%Z -> powerRZ 2 k = IZR (2 ^ k).
Proof.
  intros Hk. rewrite <- (Z2Nat.id k Hk) at 1.
  rewrite <- pow_powerRZ, pow_IZR, Z2Nat.id by exact Hk. reflexivity.
Qed.

Lemma pw_neg (k : Z) : powerRZ 2 (- k) = / powerRZ 2 k.
Proof. apply powerRZ_neg'. Qed.

Lemma pw_ge_1 (k : Z) : (0 <= k)%Z -> 1 <= powerRZ 2 k.
Proof.
  intros Hk. rewrite pw_IZR by exact Hk. apply IZR_le.
  pose proof (Z.pow_pos_nonneg 2 k). lia.
Qed.

Lemma pw_le (a b : Z) : (a <= b)%Z -> powerRZ 2 a <= powerRZ 2 b.
Proof.
  intros Hab. replace b with (a + (b - a))%Z by lia. rewrite pw_add.
  pose proof (pw_pos a). pose proof (pw_ge_1 (b - a) ltac:(lia)). nra.
Qed.

Lemma pw_succ (a : Z) : powerRZ 2 (a + 1) = 2 * powerRZ 2 a.
Proof. rewrite pw_add. simpl. lra. Qed.

Lemma pw_lt (a b : Z) : (a < b)%Z -> powerRZ 2 a < powerRZ 2 b.
Proof.
  intros Hab. pose proof (pw_le (a + 1) b ltac:(lia)) as H.
  rewrite pw_succ in H. pose proof (pw_pos a). lra.
Qed.

Lemma pw_lt_inv (a b : Z) : powerRZ 2 a < powerRZ 2 b -> (a < b)%Z.
Proof.
  intros H. destruct (Z_lt_le_dec a b) as [Hlt|Hge]; [exact Hlt|].
  apply pw_le in Hge. lra.
Qed.

Lemma pw_cancel (k : Z) : powerRZ 2 k * powerRZ 2 (- k) = 1.
Proof. rewrite <- pw_add, Z.add_opp_diag_r. reflexivity. Qed.

Lemma shift_R (n d k a b : Z) :
  (0 < d)%Z -> shift n d k = (a, b) ->
  (0 < b)%Z /\ IZR a / IZR b = IZR n / IZR d * powerRZ 2 k.
Proof.
  intros Hd. unfold shift.
  assert (Hd' : 0 < IZR d) by (apply IZR_lt; exact Hd).
  destruct (Z.leb_spec 0 k) as [Hk|Hk]; intros [= <- <-].
  - split; [exact Hd|]. rewrite mult_IZR, <- pw_IZR by exact Hk.
    field. lra.
  - assert (Hp : (0 < 2 ^ (- k))%Z) by (apply Z.pow_pos_nonneg; lia).
    split; [lia|]. rewrite mult_IZR, <- pw_IZR by lia.
    rewrite pw_neg. pose proof (pw_pos k). field. lra.
Qed.

Lemma frac_R (m e a b : Z) :
  frac m e = (a, b) ->
  (0 < b)%Z /\ IZR a / IZR b = IZR m * powerRZ 2 e.
Proof.
  intros H. apply shift_R in H; [|lia].
  destruct H as [Hb H]. split; [exact Hb|]. rewrite H. lra.
Qed.

Lemma frac_nonneg (m e a b : Z) :
  frac m e = (a, b) -> (0 <= m)%Z -> (0 <= a)%Z.
Proof.
  unfold frac, shift. destruct (0 <=? e)%Z; intros [= <- <-] Hm; [|exact Hm].
  apply Z.mul_nonneg_nonneg; [exact Hm|]. apply Z.pow_nonneg. lia.
Qed.

Lemma ties_even_Z (a b : Z) :
  (0 < b)%Z ->
  (2 * ties_even a b * b - b <= 2 * a <= 2 * ties_even a b * b + b)%Z.
Proof.
  intros Hb. unfold ties_even.
  pose proof (Z.div_mod a b ltac:(lia)) as Hdm.
  pose proof (Z.mod_pos_bound a b Hb) as Hr.
  destruct (Z.ltb_spec (2 * (a mod b)) b);
    [|destruct (Z.ltb_spec b (2 * (a mod b))); [|destruct (Z.even (a / b))]];
    nia.
Qed.

Lemma ties_even_le (a b K : Z) :
  (0 < b)%Z -> (a <= K * b)%Z -> (ties_even a b <= K)%Z.
Proof.
  intros Hb Ha. unfold ties_even.
  pose proof (Z.div_mod a b ltac:(lia)) as Hdm.
  pose proof (Z.mod_pos_bound a b Hb) as Hr.
  assert (Hq : (a / b <= K)%Z) by nia.
  destruct (Z.ltb_spec (2 * (a mod b)) b); [exact Hq|].
  assert (a / b < K)%Z by nia.
  destruct (Z.ltb_spec b (2 * (a mod b))); [|destruct (Z.even (a / b))]; lia.
Qed.

Lemma ties_even_ge (a b K : Z) :
  (0 < b)%Z -> (K * b <= a)%Z -> (K <= ties_even a b)%Z.
Proof.
  intros Hb Ha. unfold ties_even.
  pose proof (Z.div_mod a b ltac:(lia)) as Hdm.
  pose proof (Z.mod_pos_bound a b Hb) as Hr.
  assert (Hq : (K <= a / b)%Z) by nia.
  destruct (Z.ltb_spec (2 * (a mod b)) b); [exact Hq|].
  destruct (Z.ltb_spec b (2 * (a mod b))); [|destruct (Z.even (a / b))]; lia.
Qed.

Lemma frac_le_IZR (a b K : Z) :
  (0 < b)%Z -> IZR a / IZR b <= IZR K -> (a <= K * b)%Z.
Proof.
  intros Hb H. apply le_IZR. rewrite mult_IZR.
  assert (0 < IZR b) by (apply IZR_lt; exact Hb).
  apply (Rmult_le_compat_r (IZR b)) in H; [|lra].
  replace (IZR a / IZR b * IZR b) with (IZR a) in H by (field; lra).
  exact H.
Qed.

Lemma frac_ge_IZR (a b K : Z) :
  (0 < b)%Z -> IZR K <= IZR a / IZR b -> (K * b <= a)%Z.
Proof.
  intros Hb H. apply le_IZR. rewrite mult_IZR.
  assert (0 < IZR b) by (apply IZR_lt; exact Hb).
  apply (Rmult_le_compat_r (IZR b)) in H; [|lra].
  replace (IZR a / IZR b * IZR b) with (IZR a) in H by (field; lra).
  exact H.
Qed.

Lemma ties_even_R (a b : Z) :
  (0 < b)%Z ->
  IZR a / IZR b - 1 / 2 <= IZR (ties_even a b) <= IZR a / IZR b + 1 / 2.
Proof.
  intros Hb. pose proof (ties_even_Z a b Hb) as [Hlo Hhi].
  assert (Hb' : 0 < IZR b) by (apply IZR_lt; exact Hb).
  apply IZR_le in Hlo, Hhi.
  rewrite minus_IZR, !mult_IZR in Hlo. rewrite plus_IZR, !mult_IZR in Hhi.
  set (m := IZR (ties_even a b)) in *.
  assert (Ha : IZR a = IZR a / IZR b * IZR b) by (field; lra).
  set (x := IZR a / IZR b) in *.
  split.
  - apply (Rmult_le_reg_r (IZR b)); [exact Hb'|]. nra.
  - apply (Rmult_le_reg_r (IZR b)); [exact Hb'|]. nra.
Qed.

Lemma log2_R (n : Z) :
  (0 < n)%Z ->
  powerRZ 2 (Z.log2 n) <= IZR n < powerRZ 2 (Z.log2 n + 1).
Proof.
  intros Hn. pose proof (Z.log2_spec n Hn) as [Hlo Hhi].
  pose proof (Z.log2_nonneg n) as H0.
  rewrite !pw_IZR by lia. split; [apply IZR_le|apply IZR_lt]; lia.
Qed.

Lemma ilog2_R (n d : Z) :
  (0 < n)%Z -> (0 < d)%Z ->
  powerRZ 2 (ilog2 n d) <= IZR n / IZR d < powerRZ 2 (ilog2 n d + 1).
Proof.
  intros Hn Hd. unfold ilog2.
  set (k := (Z.log2 n - Z.log2 d)%Z).
  destruct (shift n d (- k)) as [a b] eqn:Hs.
  apply shift_R in Hs; [|exact Hd]. destruct Hs as [Hb Hs].
  pose proof (log2_R n Hn) as [Hn1 Hn2].
  pose proof (log2_R d Hd) as [Hd1 Hd2].
  rewrite pw_succ in Hn2, Hd2.
  assert (Hk : powerRZ 2 (Z.log2 n) = powerRZ 2 k * powerRZ 2 (Z.log2 d)).
  { rewrite <- pw_add. f_equal. subst k. lia. }
  pose proof (pw_pos k) as Hpk. pose proof (pw_pos (Z.log2 d)) as Hpd.
  pose proof (pw_cancel k) as Hc.
  assert (Hd' : 0 < IZR d) by (apply IZR_lt; exact Hd).
  assert (Hb' : 0 < IZR b) by (apply IZR_lt; exact Hb).
  set (x := IZR n / IZR d) in *.
  assert (Hx : IZR n = x * IZR d) by (subst x; field; lra).
  assert (Hlow : powerRZ 2 k < 2 * x).
  { apply (Rmult_lt_reg_r (IZR d)); [exact Hd'|]. nra. }
  assert (Hupp : x < 2 * powerRZ 2 k).
  { apply (Rmult_lt_reg_r (IZR d)); [exact Hd'|]. nra. }
  destruct (Z.leb_spec b a) as [Hab|Hab].
  - rewrite pw_succ. split; [|exact Hupp].
    assert (H1 : 1 <= IZR a / IZR b).
    { apply IZR_le in Hab. apply (Rmult_le_reg_r (IZR b)); [exact Hb'|].
      replace (IZR a / IZR b * IZR b) with (IZR a) by (field; lra). lra. }
    rewrite Hs in H1. pose proof (pw_pos (- k)). nra.
  - replace (k - 1 + 1)%Z with k by lia.
    assert (Hk1 : powerRZ 2 k = 2 * powerRZ 2 (k - 1)).
    { rewrite <- pw_succ. f_equal. lia. }
    split; [lra|].
    assert (H1 : IZR a / IZR b < 1).
    { apply IZR_lt in Hab. apply (Rmult_lt_reg_r (IZR b)); [exact Hb'|].
      replace (IZR a / IZR b * IZR b) with (IZR a) by (field; lra). lra. }
    rewrite Hs in H1. pose proof (pw_pos (- k)). nra.
Qed.

Lemma ilog2_lt (n d k : Z) :
  (0 < n)%Z -> (0 < d)%Z ->
  IZR n / IZR d < powerRZ 2 k -> (ilog2 n d < k)%Z.
Proof.
  intros Hn Hd H. apply pw_lt_inv.
  pose proof (ilog2_R n d Hn Hd). lra.
Qed.

Lemma ilog2_ge (n d k : Z) :
  (0 < n)%Z -> (0 < d)%Z ->
  powerRZ 2 k <= IZR n / IZR d -> (k <= ilog2 n d)%Z.
Proof.
  intros Hn Hd H.
  assert (k < ilog2 n d + 1)%Z; [|lia].
  apply pw_lt_inv. pose proof (ilog2_R n d Hn Hd). lra.
Qed.

(** The rounding of a positive fraction: the exponent [e] is fixed by
    the binade of [n / d]; the significand [m] is an integer nearest to
    [n / d / 2^e]. *)
Lemma round_spec (n d : Z) :
  (0 < n)%Z -> (0 < d)%Z ->
  let e := Z.max (ilog2 n d - 52) (-1074) in
  let x := IZR n / IZR d * powerRZ 2 (- e) in
  exists m,
    (0 <= m <= 2 ^ 53)%Z
    /\ x - 1 / 2 <= IZR m <= x + 1 / 2
    /\ (forall K, x <= IZR K -> (m <= K)%Z)
    /\ (forall K, IZR K <= x -> (K <= m)%Z)
    /\ (round n d = Finite m e
        \/ round n d = Infinity
           /\ powerRZ 2 1024 <= IZR m * powerRZ 2 e).
Proof.
  intros Hn Hd e x. unfold round.
  destruct (Z.leb_spec n 0) as [Hn0|_]; [lia|]. fold e.
  destruct (shift n d (- e)) as [a b] eqn:Hs.
  apply shift_R in Hs; [|exact Hd]. destruct Hs as [Hb Hs]. fold x in Hs.
  assert (Hle : forall K, x <= IZR K -> (ties_even a b <= K)%Z).
  { intros K HK. apply ties_even_le; [exact Hb|].
    apply frac_le_IZR; [exact Hb|]. rewrite Hs. exact HK. }
  assert (Hge : forall K, IZR K <= x -> (K <= ties_even a b)%Z).
  { intros K HK. apply ties_even_ge; [exact Hb|].
    apply frac_ge_IZR; [exact Hb|]. rewrite Hs. exact HK. }
  assert (Hx0 : 0 <= x).
  { subst x. pose proof (pw_pos (- e)).
    assert (0 < IZR n) by (apply IZR_lt; exact Hn).
    assert (0 < IZR d) by (apply IZR_lt; exact Hd).
    apply Rmult_le_pos; [|lra].
    apply Rmult_le_pos; [lra|]. apply Rlt_le, Rinv_0_lt_compat. lra. }
  assert (Hx53 : x <= IZR (2 ^ 53)).
  { rewrite <- pw_IZR by lia. subst x.
    pose proof (ilog2_R n d Hn Hd) as [_ Hup].
    pose proof (pw_pos (- e)) as Hpe.
    assert (Hexp : powerRZ 2 (ilog2 n d + 1) * powerRZ 2 (- e)
                   <= powerRZ 2 53).
    { rewrite <- pw_add. apply pw_le. subst e. lia. }
    nra. }
  exists (ties_even a b).
  split; [split; [apply Hge; simpl; exact Hx0 | apply Hle; exact Hx53]|].
  split; [rewrite <- Hs; apply ties_even_R; exact Hb|].
  split; [exact Hle|]. split; [exact Hge|].
  destruct (Z.leb_spec 0 e) as [He|He]; cbn [andb]; [|left; reflexivity].
  destruct (Z.leb_spec (2 ^ 1024) (ties_even a b * 2 ^ e)) as [Hov|Hov];
    [|left; reflexivity].
  right. split; [reflexivity|].
  rewrite (pw_IZR 1024) by lia. rewrite (pw_IZR e) by exact He.
  rewrite <- mult_IZR. apply IZR_le. exact Hov.
Qed.

Lemma round_zero (n d : Z) : (n <= 0)%Z -> round n d = Finite 0 0.
Proof.
  intros Hn. unfold round.
  destruct (Z.leb_spec n 0) as [_|H]; [reflexivity|lia].
Qed.

(** A bound that is itself a binary64 number bounds the rounding too. *)
Lemma round_le_dyadic (n d M E : Z) :
  (0 <= n)%Z -> (0 < d)%Z -> (0 <= M < 2 ^ 53)%Z -> (-1074 <= E <= 971)%Z ->
  IZR n / IZR d <= IZR M * powerRZ 2 E ->
  exists m e,
    round n d = Finite m e /\ finite (Finite m e)
    /\ 0 <= value (Finite m e) <= IZR M * powerRZ 2 E.
Proof.
  intros Hn Hd HM HE Hx.
  assert (HM0 : 0 <= IZR M) by (apply IZR_le; lia).
  pose proof (pw_pos E) as HpE.
  destruct (Z.eq_dec n 0%Z) as [->|Hn0].
  { exists 0%Z, 0%Z. rewrite round_zero by lia. simpl.
    split; [reflexivity|]. split; [lia|]. nra. }
  assert (Hn' : (0 < n)%Z) by lia.
  destruct (round_spec n d Hn' Hd) as (m & Hm & _ & Hle & _ & Hr).
  set (e := Z.max (ilog2 n d - 52) (-1074)) in *.
  assert (HM53 : IZR M < powerRZ 2 53).
  { rewrite pw_IZR by lia. apply IZR_lt. lia. }
  assert (He : (e <= E)%Z).
  { assert (ilog2 n d < 53 + E)%Z; [|subst e; lia].
    apply ilog2_lt; [exact Hn'|exact Hd|]. rewrite pw_add. nra. }
  assert (HK : IZR (M * 2 ^ (E - e)) = IZR M * powerRZ 2 E * powerRZ 2 (- e)).
  { rewrite mult_IZR, <- pw_IZR by lia.
    replace (E - e)%Z with (E + - e)%Z by lia. rewrite pw_add. ring. }
  pose proof (pw_pos (- e)) as Hpe. pose proof (pw_pos e) as Hpe'.
  pose proof (pw_cancel e) as Hc.
  assert (HmK : (m <= M * 2 ^ (E - e))%Z).
  { apply Hle. rewrite HK. nra. }
  apply IZR_le in HmK. rewrite HK in HmK.
  assert (Hval : IZR m * powerRZ 2 e <= IZR M * powerRZ 2 E).
  { apply (Rmult_le_compat_r (powerRZ 2 e)) in HmK; [|lra].
    replace (IZR M * powerRZ 2 E * powerRZ 2 (- e) * powerRZ 2 e)
      with (IZR M * powerRZ 2 E * (powerRZ 2 e * powerRZ 2 (- e)))
      in HmK by ring.
    rewrite Hc in HmK. lra. }
  assert (Hlim : IZR M * powerRZ 2 E < powerRZ 2 1024).
  { replace 1024%Z with (53 + 971)%Z by reflexivity. rewrite pw_add.
    pose proof (pw_le E 971 ltac:(lia)). pose proof (pw_pos 53). nra. }
  destruct Hr as [Hr|[_ Hov]]; [|lra].
  exists m, e. split; [exact Hr|]. simpl. split; [subst e; lia|].
  split; [|exact Hval].
  apply Rmult_le_pos; [apply IZR_le; lia|lra].
Qed.

(** A lower bound that is itself a binary64 number bounds the rounding
    too, unless the rounding overflows. *)
Lemma round_ge_dyadic (n d M E : Z) :
  (0 < n)%Z -> (0 < d)%Z -> (0 <= M <= 2 ^ 53)%Z -> (-1074 <= E)%Z ->
  IZR M * powerRZ 2 E <= IZR n / IZR d ->
  round n d = Infinity
  \/ exists m e,
       round n d = Finite m e /\ finite (Finite m e)
       /\ IZR M * powerRZ 2 E <= value (Finite m e).
Proof.
  intros Hn Hd HM HE Hx.
  destruct (round_spec n d Hn Hd) as (m & Hm & _ & _ & Hge & Hr).
  set (e := Z.max (ilog2 n d - 52) (-1074)) in *.
  destruct Hr as [Hr|[Hr _]]; [|left; exact Hr].
  right. exists m, e. split; [exact Hr|]. simpl. split; [subst e; lia|].
  pose proof (pw_pos (- e)) as Hpe. pose proof (pw_pos e) as Hpe'.
  pose proof (pw_cancel e) as Hc. pose proof (pw_pos E) as HpE.
  assert (HM0 : 0 <= IZR M) by (apply IZR_le; lia).
  destruct (Z_le_gt_dec e E) as [He|He].
  - assert (HK : IZR (M * 2 ^ (E - e))
                 = IZR M * powerRZ 2 E * powerRZ 2 (- e)).
    { rewrite mult_IZR, <- pw_IZR by lia.
      replace (E - e)%Z with (E + - e)%Z by lia. rewrite pw_add. ring. }
    assert (HmK : (M * 2 ^ (E - e) <= m)%Z).
    { apply Hge. rewrite HK. nra. }
    apply IZR_le in HmK. rewrite HK in HmK.
    apply (Rmult_le_compat_r (powerRZ 2 e)) in HmK; [|lra].
    replace (IZR M * powerRZ 2 E * powerRZ 2 (- e) * powerRZ 2 e)
      with (IZR M * powerRZ 2 E * (powerRZ 2 e * powerRZ 2 (- e)))
      in HmK by ring.
    rewrite Hc in HmK. lra.
  - assert (Hee : e = (ilog2 n d - 52)%Z) by (subst e; lia).
    pose proof (ilog2_R n d Hn Hd) as [Hlo _].
    assert (H52 : (2 ^ 52 <= m)%Z).
    { apply Hge. rewrite <- pw_IZR by lia.
      replace 52%Z with (ilog2 n d + - e)%Z by lia. rewrite pw_add. nra. }
    apply IZR_le in H52. rewrite <- pw_IZR in H52 by lia.
    assert (HM53 : IZR M <= powerRZ 2 53).
    { rewrite pw_IZR by lia. apply IZR_le. lia. }
    assert (Hstep : powerRZ 2 53 * powerRZ 2 E <= powerRZ 2 52 * powerRZ 2 e).
    { rewrite <- !pw_add. apply pw_le. lia. }
    pose proof (pw_pos 52). pose proof (pw_pos 53). nra.
Qed.

(** An integer below [2^53] is a binary64 number: rounding is exact. *)
Lemma round_exact (n d N : Z) :
  (0 < d)%Z -> (0 <= N < 2 ^ 53)%Z -> IZR n / IZR d = IZR N ->
  exists m e,
    round n d = Finite m e /\ finite (Finite m e)
    /\ value (Finite m e) = IZR N.
Proof.
  intros Hd HN Hx.
  assert (Hd' : 0 < IZR d) by (apply IZR_lt; exact Hd).
  assert (HnN : n = (N * d)%Z).
  { apply eq_IZR. rewrite mult_IZR, <- Hx. field. lra. }
  assert (Hn : (0 <= n)%Z) by nia.
  destruct (round_le_dyadic n d N 0 Hn Hd HN ltac:(lia))
    as (m & e & Hr & Hfin & Hlo & Hhi).
  { rewrite Hx. simpl. lra. }
  exists m, e. split; [exact Hr|]. split; [exact Hfin|].
  simpl in Hhi. rewrite Rmult_1_r in Hhi.
  destruct (Z.eq_dec n 0%Z) as [Hn0|Hn0].
  { rewrite Hn0, round_zero in Hr by lia. injection Hr as <- <-.
    assert (N = 0)%Z by nia. subst N. simpl. lra. }
  destruct (round_ge_dyadic n d N 0 ltac:(lia) Hd ltac:(lia) ltac:(lia))
    as [Hinf|(m' & e' & Hr' & _ & Hge)].
  { rewrite Hx. simpl. lra. }
  { rewrite Hr in Hinf. discriminate Hinf. }
  rewrite Hr in Hr'. injection Hr' as <- <-.
  simpl in Hge. rewrite Rmult_1_r in Hge. simpl. simpl in Hhi. lra.
Qed.

(** The rounding error below [2^k] is at most half a unit in the last
    place of that binade. *)
Lemma round_error (n d k : Z) :
  (0 <= n)%Z -> (0 < d)%Z -> (-1021 <= k <= 53)%Z ->
  IZR n / IZR d < powerRZ 2 k ->
  exists m e,
    round n d = Finite m e /\ finite (Finite m e)
    /\ 0 <= value (Finite m e)
    /\ - powerRZ 2 (k - 54) <= value (Finite m e) - IZR n / IZR d
       <= powerRZ 2 (k - 54).
Proof.
  intros Hn Hd Hk Hx.
  destruct (round_le_dyadic n d 1 53 Hn Hd ltac:(lia) ltac:(lia))
    as (m & e & Hr & Hfin & Hlo & _).
  { pose proof (pw_le k 53 ltac:(lia)). lra. }
  exists m, e. split; [exact Hr|]. split; [exact Hfin|].
  split; [exact Hlo|].
  pose proof (pw_pos (k - 54)) as Hpk.
  destruct (Z.eq_dec n 0%Z) as [Hn0|Hn0].
  { rewrite Hn0, round_zero in Hr by lia. injection Hr as <- <-.
    rewrite Hn0. simpl. unfold Rdiv. rewrite !Rmult_0_l. lra. }
  assert (Hn' : (0 < n)%Z) by lia.
  destruct (round_spec n d Hn' Hd) as (m' & _ & Hnear & _ & _ & Hr').
  set (e' := Z.max (ilog2 n d - 52) (-1074)) in *.
  destruct Hr' as [Hr'|[Hr' _]]; [|rewrite Hr in Hr'; discriminate Hr'].
  rewrite Hr in Hr'. injection Hr' as Hm' He'. subst m'.
  assert (He : (e <= k - 53)%Z).
  { assert (ilog2 n d < k)%Z; [|rewrite He'; subst e'; lia].
    apply ilog2_lt; [exact Hn'|exact Hd|exact Hx]. }
  rewrite <- He' in Hnear. clear He' e'.
  pose proof (pw_pos (- e)) as Hpe. pose proof (pw_pos e) as Hpe'.
  pose proof (pw_cancel e) as Hc.
  assert (Hulp : powerRZ 2 e <= 2 * powerRZ 2 (k - 54)).
  { rewrite <- pw_succ. apply pw_le. lia. }
  simpl. set (x := IZR n / IZR d) in *.
  assert (Hx' : x = x * powerRZ 2 (- e) * powerRZ 2 e).
  { rewrite Rmult_assoc, (Rmult_comm (powerRZ 2 (- e))), Hc. ring. }
  split; nra.
Qed.

Lemma frac_pos (m e a b : Z) :
  frac m e = (a, b) -> (0 < m)%Z -> (0 < a)%Z.
Proof.
  unfold frac, shift.
  destruct (Z.leb_spec 0 e) as [He|He]; intros [= <- <-] Hm; [|exact Hm].
  apply Z.mul_pos_pos; [exact Hm|]. apply Z.pow_pos_nonneg; lia.
Qed.

Lemma add_round (x y : number) :
  finite x -> finite y ->
  exists n d,
    (0 <= n)%Z /\ (0 < d)%Z /\ add x y = round n d
    /\ IZR n / IZR d = value x + value y.
Proof.
  destruct x as [mx ex| |]; try contradiction.
  destruct y as [my ey| |]; try contradiction.
  intros [Hmx _] [Hmy _]. simpl.
  destruct (frac mx ex) as [nx dx] eqn:Hfx.
  destruct (frac my ey) as [ny dy] eqn:Hfy.
  pose proof (frac_nonneg _ _ _ _ Hfx ltac:(lia)) as Hnx.
  pose proof (frac_nonneg _ _ _ _ Hfy ltac:(lia)) as Hny.
  apply frac_R in Hfx, Hfy.
  destruct Hfx as [Hdx Hfx], Hfy as [Hdy Hfy].
  exists (nx * dy + ny * dx)%Z, (dx * dy)%Z.
  split; [nia|]. split; [nia|]. split; [reflexivity|].
  rewrite <- Hfx, <- Hfy, plus_IZR, !mult_IZR.
  apply IZR_lt in Hdx, Hdy. field. lra.
Qed.

Lemma mul_round (x y : number) :
  finite x -> finite y ->
  exists n d,
    (0 <= n)%Z /\ (0 < d)%Z /\ mul x y = round n d
    /\ IZR n / IZR d = value x * value y.
Proof.
  destruct x as [mx ex| |]; try contradiction.
  destruct y as [my ey| |]; try contradiction.
  intros [Hmx _] [Hmy _]. simpl.
  destruct (frac mx ex) as [nx dx] eqn:Hfx.
  destruct (frac my ey) as [ny dy] eqn:Hfy.
  pose proof (frac_nonneg _ _ _ _ Hfx ltac:(lia)) as Hnx.
  pose proof (frac_nonneg _ _ _ _ Hfy ltac:(lia)) as Hny.
  apply frac_R in Hfx, Hfy.
  destruct Hfx as [Hdx Hfx], Hfy as [Hdy Hfy].
  exists (nx * ny)%Z, (dx * dy)%Z.
  split; [nia|]. split; [nia|]. split; [reflexivity|].
  rewrite <- Hfx, <- Hfy, !mult_IZR.
  apply IZR_lt in Hdx, Hdy. field. lra.
Qed.

Lemma div_round (x y : number) :
  finite x -> finite y -> is_zero y = false ->
  exists n d,
    (0 <= n)%Z /\ (0 < d)%Z /\ div x y = round n d
    /\ IZR n / IZR d = value x / value y /\ 0 < value y.
Proof.
  destruct x as [mx ex| |]; try contradiction.
  destruct y as [my ey| |]; try contradiction.
  intros [Hmx _] [Hmy _] Hz. simpl in Hz. simpl. rewrite Hz.
  apply Z.eqb_neq in Hz.
  destruct (frac mx ex) as [nx dx] eqn:Hfx.
  destruct (frac my ey) as [ny dy] eqn:Hfy.
  pose proof (frac_nonneg _ _ _ _ Hfx ltac:(lia)) as Hnx.
  pose proof (frac_pos _ _ _ _ Hfy ltac:(lia)) as Hny.
  apply frac_R in Hfx, Hfy.
  destruct Hfx as [Hdx Hfx], Hfy as [Hdy Hfy].
  exists (nx * dy)%Z, (dx * ny)%Z.
  split; [nia|]. split; [nia|]. split; [reflexivity|].
  apply IZR_lt in Hdx, Hdy, Hny.
  split.
  - rewrite <- Hfx, <- Hfy, !mult_IZR. field. lra.
  - rewrite <- Hfy. apply Rdiv_lt_0_compat; lra.
Qed.

Lemma finite_value_nonneg (x : number) : finite x -> 0 <= value x.
Proof.
  destruct x as [m e| |]; try contradiction. intros [Hm _]. simpl.
  apply Rmult_le_pos; [apply IZR_le; lia|]. apply Rlt_le, pw_pos.
Qed.

Lemma of_Z_exact (p : Z) :
  (0 <= p < 2 ^ 53)%Z ->
  exists m e,
    of_Z p = Finite m e /\ finite (Finite m e)
    /\ value (Finite m e) = IZR p.
Proof.
  intros Hp. apply round_exact; [lia|exact Hp|]. field.
Qed.

Lemma of_Z_finite (p : Z) :
  (0 <= p <= MAX_VALUE)%Z -> finite (of_Z p).
Proof.
  intros Hp.
  destruct (round_le_dyadic p 1 (2 ^ 53 - 1) 971)
    as (m & e & Hr & Hfin & _); try lia.
  - replace (IZR p / IZR 1) with (IZR p) by field.
    rewrite pw_IZR, <- mult_IZR by lia. apply IZR_le. exact (proj2 Hp).
  - unfold of_Z. rewrite Hr. exact Hfin.
Qed.

End Rounding.

(** The rounding of this file against the Standard Library's executable
    specification of binary64, on the numbers of the examples: small
    counters, the counters of the counterexample to C3 with their total,
    a sum beyond [2^53], an overflow and a subnormal quotient. *)
Lemma binary64_agreement :
  Forall (fun pq => agrees_with_SpecFloat (fst pq) (snd pq))
    [(1, 3); (2, 3); (3, 4); (1, 32); (23, 160); (1, 800);
     (882223653686, 1077920036271); (195696382585, 882223653686);
     (2 ^ 53 + 2, 1); (2 ^ 1023, 2 ^ 1023); (1, 2 ^ 1023 + 2 ^ 1022);
     (0, 7)]%Z.
Proof.
  repeat (constructor; [vm_compute; auto|]). constructor.
Qed.


(** ** computeSubjectPercentage: [calculatePercentage] *)

Section PercentageFacts.
Context {engine : Engine}.
Local Open Scope R_scope.

(** [toFixed(2)] of a number up to 100: the nearest number of
    hundredths, the larger one on a tie. *)
Lemma toFixed2_spec (x : number) :
  finite x -> value x <= 100 ->
  exists n,
    (0 <= n <= 10000)%Z /\ toFixed2 x = fixed2 n
    /\ IZR n - 1 / 2 <= 100 * value x < IZR n + 1 / 2.
Proof.
  destruct x as [m e| |]; try contradiction.
  intros [Hm _] Hv. unfold toFixed2.
  destruct (frac m e) as [a b] eqn:Hf.
  pose proof (frac_nonneg _ _ _ _ Hf ltac:(lia)) as Ha.
  apply frac_R in Hf. destruct Hf as [Hb Hf]. unfold value in Hv.
  rewrite <- Hf in Hv. unfold value. rewrite <- Hf.
  assert (Hab : (a <= 100 * b)%Z) by (apply frac_le_IZR; assumption).
  destruct (Z.leb_spec (10 ^ 21 * b) a) as [Hbig|_].
  { assert (10 ^ 21 = 1000000000000000000000)%Z by reflexivity. lia. }
  set (n := ((200 * a + b) / (2 * b))%Z).
  pose proof (Z.div_mod (200 * a + b) (2 * b) ltac:(lia)) as Hdm.
  pose proof (Z.mod_pos_bound (200 * a + b) (2 * b) ltac:(lia)) as Hr.
  fold n in Hdm.
  exists n. split; [nia|]. split; [reflexivity|].
  assert (Hb' : 0 < IZR b) by (apply IZR_lt; exact Hb).
  assert (Hlo : (2 * b * n <= 200 * a + b)%Z) by lia.
  assert (Hhi : (200 * a + b < 2 * b * n + 2 * b)%Z) by lia.
  apply IZR_le in Hlo. apply IZR_lt in Hhi.
  rewrite plus_IZR, !mult_IZR in Hlo. rewrite !plus_IZR, !mult_IZR in Hhi.
  set (v := IZR a / IZR b) in *.
  assert (Hav : IZR a = v * IZR b) by (subst v; field; lra).
  rewrite Hav in Hlo, Hhi.
  split.
  - apply (Rmult_le_reg_r (IZR b)); [exact Hb'|]. nra.
  - apply (Rmult_lt_reg_r (IZR b)); [exact Hb'|]. nra.
Qed.

(** The percentage of two finite numbers: a number [n] of hundredths
    between 0 and 10000, which is within the two rounding errors of the
    quotient and the product, and the half unit of [toFixed], of the
    exact percentage. *)
Lemma calculatePercentage_core (x y : number) :
  finite x -> finite y ->
  exists n,
    (0 <= n <= 10000)%Z
    /\ calculatePercentage x y = fixed2 n
    /\ (forall mT eT,
          add x y = Finite mT eT -> mT <> 0%Z ->
          - (1 / 2 + 100 * powerRZ 2 (-47) + 10000 * powerRZ 2 (-53))
          <= IZR n - 10000 * (value x / value (Finite mT eT))
          <= 1 / 2 + 100 * powerRZ 2 (-47) + 10000 * powerRZ 2 (-53)).
Proof.
  intros Hx Hy. unfold calculatePercentage.
  destruct (add_round x y Hx Hy) as (n0 & d0 & Hn0 & Hd0 & Hadd & Hsum).
  pose proof (finite_value_nonneg x Hx) as Hvx.
  pose proof (finite_value_nonneg y Hy) as Hvy.
  assert (Hzero : exists n,
             (0 <= n <= 10000)%Z /\ lit "0.00" = fixed2 n).
  { exists 0%Z. split; [lia|reflexivity]. }
  destruct (Z.eq_dec n0 0%Z) as [Hz|Hnz].
  { rewrite Hadd, Hz, round_zero by lia. simpl.
    destruct Hzero as (n & Hn & Hfix). exists n.
    split; [exact Hn|]. split; [exact Hfix|].
    intros mT eT [= <- <-] HmT. contradiction. }
  destruct x as [mx ex| |]; try contradiction.
  destruct (round_ge_dyadic n0 d0 mx ex) as [Hinf|(mT & eT & HT & HfT & HgeT)];
    try lia.
  { exact (proj1 Hx). }
  { exact (proj2 Hx). }
  { rewrite Hsum. unfold value at 1. unfold value in Hvx. lra. }
  { rewrite Hadd, Hinf.
    exists 0%Z. split; [lia|]. split; [reflexivity|].
    intros mT eT HT. discriminate HT. }
  rewrite Hadd, HT. unfold is_zero.
  destruct (Z.eqb_spec mT 0) as [HmT|HmT].
  { destruct Hzero as (n & Hn & Hfix). exists n.
    split; [exact Hn|]. split; [exact Hfix|].
    intros mT' eT' [= <- <-] HmT'. contradiction. }
  set (vx := value (Finite mx ex)) in *.
  set (vT := value (Finite mT eT)) in *.
  change (vx <= vT) in HgeT.
  destruct (div_round (Finite mx ex) (Finite mT eT) Hx HfT)
    as (n1 & d1 & Hn1 & Hd1 & Hdiv & Hquot & HvT).
  { simpl. apply Z.eqb_neq. exact HmT. }
  fold vx vT in Hquot, HvT.
  assert (Hq1 : IZR n1 / IZR d1 <= 1).
  { rewrite Hquot. apply (Rmult_le_reg_r vT); [exact HvT|].
    replace (vx / vT * vT) with vx by (field; lra). lra. }
  destruct (round_le_dyadic n1 d1 1 0 Hn1 Hd1 ltac:(lia) ltac:(lia))
    as (mq & eq & Hq & Hfq & Hq0 & Hqle).
  { simpl. lra. }
  destruct (round_error n1 d1 1 Hn1 Hd1 ltac:(lia))
    as (mq' & eq' & Hq' & _ & _ & Hqerr).
  { change (powerRZ 2 1) with (2 * 1). lra. }
  rewrite Hq in Hq'. injection Hq' as <- <-.
  set (vq := value (Finite mq eq)) in *.
  change (1 - 54)%Z with (-53)%Z in Hqerr.
  change (powerRZ 2 0) with 1 in Hqle. rewrite Rmult_1_r in Hqle.
  destruct (of_Z_exact 100 ltac:(lia)) as (mc & ec & Hc & Hfc & Hvc).
  destruct (mul_round (Finite mq eq) (Finite mc ec) Hfq Hfc)
    as (n2 & d2 & Hn2 & Hd2 & Hmul & Hprod).
  fold vq in Hprod. rewrite Hvc in Hprod.
  destruct (round_le_dyadic n2 d2 100 0 Hn2 Hd2 ltac:(lia) ltac:(lia))
    as (mr & er & Hr & Hfr & Hr0 & Hrle).
  { rewrite Hprod. change (powerRZ 2 0) with 1. lra. }
  destruct (round_error n2 d2 7 Hn2 Hd2 ltac:(lia))
    as (mr' & er' & Hr' & _ & _ & Hrerr).
  { rewrite Hprod. change (powerRZ 2 7) with (2 * (2 * (2 * (2 * (2 * (2 * (2 * 1))))))). lra. }
  rewrite Hr in Hr'. injection Hr' as <- <-.
  set (vr := value (Finite mr er)) in *.
  change (7 - 54)%Z with (-47)%Z in Hrerr.
  change (powerRZ 2 0) with 1 in Hrle. rewrite Rmult_1_r in Hrle.
  destruct (toFixed2_spec (Finite mr er) Hfr Hrle) as (n & Hn & Hfix & Hnear).
  fold vr in Hnear.
  exists n. split; [exact Hn|]. split.
  { rewrite Hdiv, Hq, Hc, Hmul, Hr. exact Hfix. }
  intros mT' eT' [= <- <-] _. fold vT.
  rewrite Hprod in Hrerr. rewrite Hquot in Hqerr.
  pose proof (pw_pos (-47)). pose proof (pw_pos (-53)).
  split; lra.
Qed.

End PercentageFacts.

Lemma hundredths_fixed2 (n : Z) :
  (0 <= n <= 10000)%Z -> hundredths (fixed2 n) = Some n.
Proof.
  intros Hn.
  assert (Hall :
    forallb
      (fun k =>
         bool_decide (hundredths (fixed2 (Z.of_nat k)) = Some (Z.of_nat k)))
      (seq 0 (Z.to_nat 10001)) = true) by (vm_compute; reflexivity).
  rewrite forallb_forall in Hall.
  specialize (Hall (Z.to_nat n)).
  rewrite Z2Nat.id in Hall by lia.
  eapply bool_decide_eq_true_1. apply Hall. apply in_seq. lia.
Qed.

Section PercentageOfCounters.
Context {engine : Engine}.
Local Open Scope R_scope.

Lemma hundredths_error (n p t : Z) :
  (0 < t)%Z ->
  - (1 / 2 + 100 * powerRZ 2 (-47) + 10000 * powerRZ 2 (-53))
  <= IZR n - 10000 * (IZR p / IZR t)
  <= 1 / 2 + 100 * powerRZ 2 (-47) + 10000 * powerRZ 2 (-53) ->
  ((t < 2 ^ 53 -> Z.abs (n * t - 10000 * p) < t)
   /\ (t < 2 ^ 37 -> 2 * Z.abs (n * t - 10000 * p) <= t))%Z.
Proof.
  intros Ht. 
  change (-47)%Z with (- (47))%Z. change (-53)%Z with (- (53))%Z.
  rewrite !pw_neg, !pw_IZR by lia.
  change (2 ^ 47)%Z with 140737488355328%Z.
  change (2 ^ 53)%Z with 9007199254740992%Z.
  change (2 ^ 37)%Z with 137438953472%Z.
  intros [Hlo Hhi].
  assert (Ht' : 0 < IZR t) by (apply IZR_lt; exact Ht).
  set (X := (n * t - 10000 * p)%Z).
  assert (HX : IZR X = (IZR n - 10000 * (IZR p / IZR t)) * IZR t).
  { subst X. rewrite minus_IZR, !mult_IZR. field. lra. }
  set (D := IZR n - 10000 * (IZR p / IZR t)) in *.
  assert (Hlo' : - (1 / 2 + 100 * / 140737488355328
                    + 10000 * / 9007199254740992) * IZR t <= IZR X).
  { rewrite HX. apply Rmult_le_compat_r; lra. }
  assert (Hhi' : IZR X <= (1 / 2 + 100 * / 140737488355328
                           + 10000 * / 9007199254740992) * IZR t).
  { rewrite HX. apply Rmult_le_compat_r; lra. }
  split; intros Hsmall.
  - assert (IZR X < IZR t) by lra.
    assert (IZR (- t) < IZR X) by (rewrite opp_IZR; lra).
    apply lt_IZR in H, H0. lia.
  - apply IZR_lt in Hsmall. 
    assert (IZR (2 * X) < IZR (t + 1)).
    { rewrite mult_IZR, plus_IZR. lra. }
    assert (IZR (- t - 1) < IZR (2 * X)).
    { rewrite mult_IZR, minus_IZR, opp_IZR. lra. }
    apply lt_IZR in H, H0. lia.
Qed.

(** C3, as the code has it.  For all integers [0 <= present] and
    [0 <= absent] that are JavaScript numbers, [calculatePercentage]
    returns "0.00" when their sum is 0 and otherwise [toFixed(2)] of the
    binary64 value of [(present / total) * 100]: a text of digits, a
    point and exactly two digits that denotes [n] hundredths with
    [0 <= n <= 10000]; [n] is less than one hundredth away from the
    exact percentage while the total is below [2^53], and it is a
    two-decimal value nearest to the exact percentage while the total
    is below [2^37]; (3,1) gives "75.00" and (2,1) gives "66.67". *)
Theorem calculatePercentage_spec (present absent : Z) :
  (0 <= present <= MAX_VALUE)%Z -> (0 <= absent <= MAX_VALUE)%Z ->
  ((present + absent)%Z = 0%Z ->
     calculatePercentage (of_Z present) (of_Z absent) = lit "0.00")
  /\ (exists n,
        (0 <= n <= 10000)%Z
        /\ calculatePercentage (of_Z present) (of_Z absent) = fixed2 n
        /\ hundredths (calculatePercentage (of_Z present) (of_Z absent))
           = Some n
        /\ ((0 < present + absent < 2 ^ 53)%Z ->
            (Z.abs (n * (present + absent) - 10000 * present)
             < present + absent)%Z)
        /\ ((0 < present + absent < 2 ^ 37)%Z ->
            nearest_hundredths present absent n))
  /\ calculatePercentage (of_Z 3) (of_Z 1) = lit "75.00"
  /\ calculatePercentage (of_Z 2) (of_Z 1) = lit "66.67".
Proof.
  intros Hp Ha. split; [|split; [|split; reflexivity]].
  { intros H0. assert (present = 0%Z) by lia. assert (absent = 0%Z) by lia.
    subst. reflexivity. }
  pose proof (of_Z_finite present Hp) as Hfp.
  pose proof (of_Z_finite absent Ha) as Hfa.
  destruct (calculatePercentage_core _ _ Hfp Hfa) as (n & Hn & Hfix & Herr).
  exists n. split; [exact Hn|]. split; [exact Hfix|].
  split; [rewrite Hfix; apply hundredths_fixed2; exact Hn|].
  assert (Hexact :
    (0 < present + absent < 2 ^ 53)%Z ->
    - (1 / 2 + 100 * powerRZ 2 (-47) + 10000 * powerRZ 2 (-53))
    <= IZR n - 10000 * (IZR present / IZR (present + absent))
    <= 1 / 2 + 100 * powerRZ 2 (-47) + 10000 * powerRZ 2 (-53)).
  { intros Ht.
    destruct (of_Z_exact present ltac:(lia)) as (mp & ep & Hpe & _ & Hvp).
    destruct (of_Z_exact absent ltac:(lia)) as (ma & ea & Hae & _ & Hva).
    destruct (add_round _ _ Hfp Hfa) as (n0 & d0 & _ & Hd0 & Hadd & Hsum).
    rewrite Hpe, Hae in Hsum. rewrite Hvp, Hva, <- plus_IZR in Hsum.
    destruct (round_exact n0 d0 (present + absent) Hd0 ltac:(lia) Hsum)
      as (mT & eT & HT & _ & HvT).
    rewrite <- Hadd in HT.
    assert (HmT : mT <> 0%Z).
    { intros ->. simpl in HvT. rewrite Rmult_0_l in HvT.
      apply eq_IZR in HvT. lia. }
    specialize (Herr mT eT HT HmT).
    rewrite HvT in Herr. rewrite Hpe, Hvp in Herr. exact Herr. }
  split.
  - intros Ht. apply (hundredths_error n present (present + absent)); [lia| |lia].
    apply Hexact. exact Ht.
  - intros Ht. unfold nearest_hundredths.
    apply (hundredths_error n present (present + absent)); [lia| |lia].
    apply Hexact. lia.
Qed.

End PercentageOfCounters.

Lemma calculatePercentage_spec_witness :
  hundredths (@calculatePercentage Reference.engine (of_Z 1) (of_Z 2))
    = Some 3333%Z
  /\ nearest_hundredths 1 2 3333.
Proof.
  destruct (@calculatePercentage_spec Reference.engine 1 2)
    as (_ & (n & _ & _ & Hn & _ & Hnear) & _).
  - vm_compute. split; discriminate.
  - vm_compute. split; discriminate.
  - assert (Hn' : n = 3333%Z).
    { vm_compute in Hn. injection Hn as <-. reflexivity. }
    subst n. split; [reflexivity|]. apply Hnear. lia.
Defined.

(** C3, as stated, fails: for present = 882223653686 and absent =
    195696382585 the exact percentage lies strictly above 81.845, so its
    rounding to two decimals is 81.85 whichever way ties go; the two
    binary64 roundings bring the product just below 81.845 and the code
    returns "81.84". *)
Lemma calculatePercentage_not_exact :
  @calculatePercentage Reference.engine
     (of_Z 882223653686) (of_Z 195696382585) = lit "81.84"
  /\ ~ exists n,
        nearest_hundredths 882223653686 195696382585 n
        /\ @calculatePercentage Reference.engine
             (of_Z 882223653686) (of_Z 195696382585) = fixed2 n.
Proof.
  split; [vm_compute; reflexivity|].
  intros (n & Hn & Heq). unfold nearest_hundredths in Hn.
  assert (n = 8185%Z) by lia. subst n.
  vm_compute in Heq. discriminate Heq.
Qed.

(** ** exportCSV: [exportToCSV] *)

Section ExportCSV.
Context {engine : Engine}.

(** An integer counter below [2^53] is printed with its decimal digits. *)
Lemma Number_toString_of_Z (n : Z) :
  (0 <= n < 2 ^ 53)%Z -> Number_toString (of_Z n) = decimal n.
Proof.
  intros Hn.
  destruct (of_Z_exact n Hn) as (m & e & -> & _ & Hv).
  unfold Number_toString. destruct (frac m e) as [a b] eqn:Hf.
  apply frac_R in Hf. destruct Hf as [Hb Hf].
  simpl in Hv. rewrite <- Hf in Hv.
  assert (Ha : a = (n * b)%Z).
  { apply eq_IZR. rewrite mult_IZR, <- Hv.
    apply IZR_lt in Hb. field. lra. }
  rewrite Ha, Z.mod_mul, Z.div_mul by lia.
  destruct (Z.ltb_spec n (2 ^ 53)) as [_|Hbig]; [reflexivity|lia].
Qed.

Lemma csvContent_lines (l : list Subject.t) :
  l <> [] ->
  csvContent l = join [10%N] (csv_header :: List.map csv_line l).
Proof.
  intros Hl. destruct l as [|s l]; [contradiction|].
  unfold csvContent. fold csv_header.
  change (join [10%N] (csv_header :: List.map csv_line (s :: l)))
    with (csv_header ++ [10%N] ++ join [10%N] (List.map csv_line (s :: l))).
  rewrite <- app_assoc. reflexivity.
Qed.

(** C5: with no subjects [exportToCSV] only raises the error alert "No
    data to export"; otherwise the text it hands to the file system is
    the header line followed by one line per subject, in profile order,
    of the form name,present,absent,percentage%, the lines joined by
    single newlines; integer counters are written with their decimal
    digits; for the one subject Math 3/1 that text is the header, a
    newline and "Math,3,1,75.00%". *)
Theorem exportToCSV_spec (env : ExportEnv) (w : World Profile) :
  let l := subjects (snapshot (heap w) (attendanceData w)) in
  (l = [] -> exportToCSV env w = alert_error "No data to export" w)
  /\ (l <> [] ->
      exists fileUri later,
        effects (exportToCSV env w)
        = effects w
          ++ WriteAsString fileUri
               (join [10%N] (csv_header :: List.map csv_line l))
             :: later)
  /\ (forall subject present absent,
        (0 <= present < 2 ^ 53)%Z -> (0 <= absent < 2 ^ 53)%Z ->
        csv_line (Subject.mk subject (of_Z present) (of_Z absent))
        = subject ++ lit "," ++ decimal present ++ lit ","
            ++ decimal absent ++ lit ","
            ++ calculatePercentage (of_Z present) (of_Z absent) ++ lit "%")
  /\ csvContent [math 3 1]
     = csv_header ++ [10%N] ++ lit "Math,3,1,75.00%".
Proof.
  intros l. split; [|split; [|split]].
  - intros Hl. unfold exportToCSV.
    assert (H0 : length (subjects (attendanceData w)) = 0).
    { apply (f_equal (@length _)) in Hl. subst l.
      unfold snapshot in Hl; simpl in Hl.
      rewrite length_map in Hl. exact Hl. }
    rewrite H0. reflexivity.
  - intros Hl. unfold exportToCSV.
    destruct (Nat.eqb_spec (length (subjects (attendanceData w))) 0)
      as [H0|_].
    { exfalso. apply Hl. subst l. unfold snapshot; simpl.
      destruct (subjects (attendanceData w)); [reflexivity|discriminate H0]. }
    fold l. rewrite (csvContent_lines l Hl).
    eexists.
    destruct (writeAsStringAsync_ok env); simpl;
      [destruct (isAvailableAsync env) as [[|]|];
       [destruct (shareAsync_ok env)| |] |];
      simpl; rewrite <- ?app_assoc; simpl; eexists; reflexivity.
  - intros subject present absent Hp Ha. unfold csv_line. simpl.
    rewrite !Number_toString_of_Z by assumption. reflexivity.
  - reflexivity.
Qed.

End ExportCSV.

Lemma exportToCSV_spec_witness :
  exists fileUri later,
    effects
      (@exportToCSV Reference.engine
         (Build_ExportEnv (lit "file:///docs/") (of_Z 1700000000000)
            true (Some true) true)
         (ready (lit "A") [math 3 1]))
    = WriteAsString fileUri
        (csv_header ++ [10%N] ++ lit "Math,3,1,75.00%") :: later.
Proof.
  apply (proj1 (proj2 (@exportToCSV_spec Reference.engine
           (Build_ExportEnv (lit "file:///docs/") (of_Z 1700000000000)
              true (Some true) true)
           (ready (lit "A") [math 3 1])))).
  vm_compute. discriminate.
Defined.

(** ** The reference JSON reads back what it wrote *)

Section ReferenceJSON.
Import Reference.

Lemma expect_app (t s : jsstring) : expect t (t ++ s) = Some s.
Proof.
  induction t as [|c t IH]; simpl; [reflexivity|].
  rewrite N.eqb_refl. exact IH.
Qed.

Lemma unhex_hex (d : N) : (d < 16)%N -> unhex (hex d) = Some d.
Proof.
  intros Hd.
  assert (H : (d = 0 \/ d = 1 \/ d = 2 \/ d = 3 \/ d = 4 \/ d = 5 \/ d = 6
               \/ d = 7 \/ d = 8 \/ d = 9 \/ d = 10 \/ d = 11 \/ d = 12
               \/ d = 13 \/ d = 14 \/ d = 15)%N) by lia.
  repeat (destruct H as [->|H]; [reflexivity|]). subst. reflexivity.
Qed.

Lemma read_unicode_escape (c : N) (s body rest : jsstring) :
  (c < 65536)%N ->
  read_string_body s = Some (body, rest) ->
  read_string_body (unicode_escape c ++ s) = Some (c :: body, rest).
Proof.
  intros Hc Hs. unfold unicode_escape.
  change (lit "\u") with [92%N; 117%N]. cbn [app read_string_body].
  change (92 =? 34)%N with false. change (92 =? 92)%N with true.
  change (117 =? 117)%N with true. cbv iota.
  rewrite !unhex_hex by (apply N.mod_lt; discriminate).
  rewrite Hs. do 2 f_equal. f_equal.
  pose proof (N.div_mod' c 16) as H0.
  pose proof (N.div_mod' (c / 16) 16) as H1.
  pose proof (N.div_mod' (c / 256) 16) as H2.
  rewrite N.Div0.div_div in H1.
  change (16 * 16)%N with 256%N in H1.
  replace (c / 256 / 16)%N with (c / 4096)%N in H2
    by (rewrite N.Div0.div_div; reflexivity).
  assert (H3 : (c / 4096 < 16)%N)
    by (apply N.Div0.div_lt_upper_bound; exact Hc).
  rewrite (N.mod_small (c / 4096) 16) by exact H3.
  lia.
Qed.

Lemma is_digit_spec (c : N) : is_digit c = true <-> (48 <= c <= 57)%N.
Proof. unfold is_digit. rewrite andb_true_iff, !N.leb_le. reflexivity. Qed.

Lemma read_digits_acc (u : Decimal.uint) (acc : positive) (rest : jsstring) :
  stops rest ->
  read_digits (Zpos acc) (digits u ++ rest)
  = (Zpos (Pos.of_uint_acc u acc), rest).
Proof.
  intros Hrest. revert acc.
  induction u as [|u IH|u IH|u IH|u IH|u IH|u IH|u IH|u IH|u IH|u IH];
    intros acc; simpl;
    try (match goal with
         | |- read_digits ?z _ = (Z.pos (Pos.of_uint_acc _ ?p), _) =>
             replace z with (Z.pos p) by lia; apply IH
         end).
  destruct rest as [|c rest]; simpl; [reflexivity|].
  simpl in Hrest. rewrite Hrest. reflexivity.
Qed.

Lemma read_digits_0 (u : Decimal.uint) (rest : jsstring) :
  stops rest ->
  read_digits 0 (digits u ++ rest) = (Z.of_N (N.of_uint u), rest).
Proof.
  intros Hrest.
  induction u as [|u IH|u IH|u IH|u IH|u IH|u IH|u IH|u IH|u IH|u IH];
    simpl;
    try (apply (read_digits_acc u _ rest Hrest)).
  - destruct rest as [|c rest]; simpl; [reflexivity|].
    simpl in Hrest. rewrite Hrest. reflexivity.
  - exact IH.
Qed.

Lemma decimal_starts_with_digit (n : Z) :
  exists c s, decimal n = c :: s /\ is_digit c = true.
Proof.
  unfold decimal.
  destruct (N.to_uint (Z.to_N n)) as [|u|u|u|u|u|u|u|u|u|u] eqn:Hu;
    simpl; eauto.
  exfalso. destruct (Z.to_N n) as [|p]; [discriminate Hu|].
  revert Hu. apply DecimalPos.Unsigned.to_uint_nonnil.
Qed.

Lemma read_number_decimal (n : Z) (rest : jsstring) :
  (0 <= n)%Z -> stops rest ->
  read_number (decimal n ++ rest) = Some (of_Z n, rest).
Proof.
  intros Hn Hrest. unfold read_number.
  destruct (decimal_starts_with_digit n) as (c & s & Hd & Hc).
  assert (Hhd : decimal n ++ rest = c :: (s ++ rest))
    by (rewrite Hd; reflexivity).
  rewrite Hhd. cbv iota beta. rewrite Hc, <- Hhd.
  unfold decimal. rewrite read_digits_0 by exact Hrest.
  rewrite DecimalN.Unsigned.of_to, Z2N.id by exact Hn. reflexivity.
Qed.

Lemma read_literal (c : N) (s body rest : jsstring) :
  c <> 34%N -> c <> 92%N -> (32 <= c)%N ->
  read_string_body s = Some (body, rest) ->
  read_string_body (c :: s) = Some (c :: body, rest).
Proof.
  intros H34 H92 H32 Hs. cbn [read_string_body].
  destruct (N.eqb_spec c 34) as [|_]; [contradiction|].
  destruct (N.eqb_spec c 92) as [|_]; [contradiction|].
  destruct (N.ltb_spec c 32) as [|_]; [lia|].
  rewrite Hs. reflexivity.
Qed.

Lemma read_short_escape (c u : N) (s body rest : jsstring) :
  c <> 117%N -> unescape c = Some u ->
  read_string_body s = Some (body, rest) ->
  read_string_body (92%N :: c :: s) = Some (u :: body, rest).
Proof.
  intros H117 Hu Hs. cbn [read_string_body].
  change (92 =? 34)%N with false. change (92 =? 92)%N with true. cbv iota.
  destruct (N.eqb_spec c 117) as [|_]; [contradiction|].
  rewrite Hu, Hs. reflexivity.
Qed.

Lemma read_quote_body (n : nat) :
  forall s rest,
    length s <= n -> wf_string s ->
    read_string_body (quote_body s ++ 34%N :: rest) = Some (s, rest).
Proof.
  induction n as [|n IH]; intros s rest Hlen Hwf.
  { destruct s; [|simpl in Hlen; lia]. simpl. reflexivity. }
  destruct s as [|c s]; [reflexivity|].
  simpl in Hlen. inversion Hwf as [|? ? Hc Hwf']; subst.
  assert (IHs : forall rest, read_string_body (quote_body s ++ 34%N :: rest)
                             = Some (s, rest)).
  { intros r. apply IH; [lia|exact Hwf']. }
  cbn [quote_body].
  destruct (N.eqb_spec c 8) as [->|H8].
  { change (lit "\b") with [92%N; 98%N]. apply read_short_escape; [discriminate|reflexivity|apply IHs]. }
  destruct (N.eqb_spec c 9) as [->|H9].
  { change (lit "\t") with [92%N; 116%N]. apply read_short_escape; [discriminate|reflexivity|apply IHs]. }
  destruct (N.eqb_spec c 10) as [->|H10].
  { change (lit "\n") with [92%N; 110%N]. apply read_short_escape; [discriminate|reflexivity|apply IHs]. }
  destruct (N.eqb_spec c 12) as [->|H12].
  { change (lit "\f") with [92%N; 102%N]. apply read_short_escape; [discriminate|reflexivity|apply IHs]. }
  destruct (N.eqb_spec c 13) as [->|H13].
  { change (lit "\r") with [92%N; 114%N]. apply read_short_escape; [discriminate|reflexivity|apply IHs]. }
  destruct (N.eqb_spec c 34) as [->|H34].
  { apply read_short_escape; [discriminate|reflexivity|apply IHs]. }
  destruct (N.eqb_spec c 92) as [->|H92].
  { apply read_short_escape; [discriminate|reflexivity|apply IHs]. }
  destruct (N.ltb_spec c 32) as [Hlow|Hhigh].
  { rewrite <- app_assoc. apply read_unicode_escape; [exact Hc|apply IHs]. }
  destruct (is_high c) eqn:Hhi.
  { destruct s as [|c' s'].
    - apply read_unicode_escape; [exact Hc|reflexivity].
    - destruct (is_low c') eqn:Hlo.
      + inversion Hwf' as [|? ? Hc' Hwf'']; subst.
        unfold is_low in Hlo. apply andb_true_iff in Hlo. destruct Hlo as [Hlo1 Hlo2].
        apply N.leb_le in Hlo1, Hlo2.
        change ((c :: c' :: quote_body s') ++ 34%N :: rest)
          with (c :: c' :: (quote_body s' ++ 34%N :: rest)).
        apply read_literal; [exact H34|exact H92|exact Hhigh|].
        apply read_literal; [lia|lia|lia|].
        apply IH; [simpl in Hlen; lia|exact Hwf''].
      + rewrite <- app_assoc. apply read_unicode_escape; [exact Hc|apply IHs]. }
  destruct (is_low c) eqn:Hlo.
  { rewrite <- app_assoc. apply read_unicode_escape; [exact Hc|apply IHs]. }
  change ((c :: quote_body s) ++ 34%N :: rest)
    with (c :: (quote_body s ++ 34%N :: rest)).
  apply read_literal; [exact H34|exact H92|exact Hhigh|apply IHs].
Qed.

Lemma read_string_quote (s rest : jsstring) :
  wf_string s -> read_string (quote s ++ rest) = Some (s, rest).
Proof.
  intros Hwf. unfold read_string, quote.
  change (([34%N] ++ quote_body s ++ [34%N]) ++ rest)
    with (34%N :: ((quote_body s ++ [34%N]) ++ rest)).
  rewrite <- app_assoc. apply (read_quote_body (length s)); [lia|exact Hwf].
Qed.

Lemma expect_split (a b s : jsstring) :
  expect (a ++ b) s = expect a s ≫= expect b.
Proof.
  revert s. induction a as [|c a IH]; intros s; simpl; [reflexivity|].
  destruct s as [|c' s]; [reflexivity|].
  destruct (c =? c')%N; [apply IH|reflexivity].
Qed.

Lemma number_text_of_Z (n : Z) :
  (0 <= n < 2 ^ 53)%Z -> number_text (of_Z n) = decimal n.
Proof.
  intros Hn.
  destruct (of_Z_exact n Hn) as (m & e & -> & _ & Hv).
  unfold number_text. destruct (frac m e) as [a b] eqn:Hf.
  apply frac_R in Hf. destruct Hf as [Hb Hf].
  simpl in Hv. rewrite <- Hf in Hv.
  assert (Ha : a = (n * b)%Z).
  { apply eq_IZR. rewrite mult_IZR, <- Hv.
    apply IZR_lt in Hb. field. lra. }
  rewrite Ha, Z.mod_mul, Z.div_mul by lia.
  destruct (Z.ltb_spec n (2 ^ 53)) as [_|Hbig]; [reflexivity|lia].
Qed.

Lemma stops_lit_comma rest : stops (lit "," ++ rest).
Proof. reflexivity. Qed.

Lemma stops_lit_brace rest : stops (lit "}" ++ rest).
Proof. reflexivity. Qed.

Ltac expects :=
  repeat (first [rewrite expect_app | rewrite expect_split];
          cbn [mbind option_bind]).

Lemma read_subject_text (s : Subject.t) (rest : jsstring) :
  valid_subject s ->
  read_subject (subject_text s ++ rest) = Some (s, rest).
Proof.
  destruct s as [nm p a]. intros (Hnm & Hp & Ha). simpl in Hnm, Hp, Ha.
  destruct Hp as (np & Hnp & ->). destruct Ha as (na & Hna & ->).
  unfold read_subject, subject_text.
  cbn [Subject.name Subject.present Subject.absent].
  rewrite !number_text_of_Z by assumption.
  rewrite <- !app_assoc.
  expects.
  rewrite read_string_quote by exact Hnm. cbn [mbind option_bind].
  expects.
  rewrite read_number_decimal by (try lia; apply stops_lit_comma).
  cbn [mbind option_bind]. expects.
  rewrite read_number_decimal by (try lia; apply stops_lit_brace).
  cbn [mbind option_bind]. expects. reflexivity.
Qed.

Lemma subject_text_starts (s : Subject.t) :
  exists t, subject_text s = 123%N :: t.
Proof. eexists. reflexivity. Qed.

Lemma read_subjects_join (l : list Subject.t) :
  forall fuel rest,
    l <> [] -> length l <= fuel -> Forall valid_subject l ->
    read_subjects fuel
      (join (lit ",") (List.map subject_text l) ++ 93%N :: rest)
    = Some (l, 93%N :: rest).
Proof.
  induction l as [|x l IH]; intros fuel rest Hne Hlen Hv; [contradiction|].
  inversion Hv as [|? ? Hx Hl]; subst.
  destruct fuel as [|fuel]; [simpl in Hlen; lia|].
  cbn [read_subjects]. destruct l as [|y l].
  - cbn [List.map join]. rewrite read_subject_text by exact Hx.
    reflexivity.
  - change (join (lit ",") (List.map subject_text (x :: y :: l)))
      with (subject_text x ++ lit ","
              ++ join (lit ",") (List.map subject_text (y :: l))).
    rewrite <- !app_assoc. rewrite read_subject_text by exact Hx.
    cbn [mbind option_bind]. change (lit "," ++ ?t) with (44%N :: t).
    cbv iota beta.
    rewrite IH; [reflexivity|discriminate|simpl in *; lia|exact Hl].
Qed.

Lemma length_join_ge (l : list Subject.t) :
  length l <= length (join (lit ",") (List.map subject_text l)).
Proof.
  induction l as [|x l IH]; [simpl; lia|].
  destruct l as [|y l].
  - destruct (subject_text_starts x) as [t Ht]. cbn [List.map join].
    rewrite Ht. simpl. lia.
  - change (join (lit ",") (List.map subject_text (x :: y :: l)))
      with (subject_text x ++ lit ","
              ++ join (lit ",") (List.map subject_text (y :: l))).
    rewrite !length_app. destruct (subject_text_starts x) as [t Ht].
    rewrite Ht. change (length (lit ",")) with 1.
    cbn [length] in *. lia.
Qed.

(** The reference JSON reads back every valid profile from the text it
    wrote for it. *)
Lemma parse_stringify (d : attendance Subject.t) :
  valid_profile d -> parse (stringify d) = Some d.
Proof.
  destruct d as [nm l]. intros (_ & _ & Hnm & Hl). simpl in Hnm, Hl.
  unfold parse, stringify. cbn [name subjects].
  rewrite <- ?app_assoc. expects.
  rewrite read_string_quote by exact Hnm. cbn [mbind option_bind].
  expects.
  destruct l as [|x l].
  - cbn [List.map join app]. change (lit "]}") with [93%N; 125%N].
    cbn [app]. cbv iota beta. cbn [mbind option_bind].
    reflexivity.
  - set (text := join (lit ",") (List.map subject_text (x :: l))).
    change (lit "]}") with (93%N :: lit "}").
    assert (Hstart : exists t, text ++ 93%N :: lit "}" = 123%N :: t).
    { subst text. destruct (subject_text_starts x) as [t Ht].
      destruct l as [|y l].
      - cbn [List.map join]. rewrite Ht. eexists. reflexivity.
      - change (join (lit ",") (List.map subject_text (x :: y :: l)))
          with (subject_text x ++ lit ","
                  ++ join (lit ",") (List.map subject_text (y :: l))).
        rewrite Ht. eexists. reflexivity. }
    destruct Hstart as [t Ht].
    assert (Hread : read_subjects (length (text ++ 93%N :: lit "}"))
                      (text ++ 93%N :: lit "}")
                    = Some (x :: l, 93%N :: lit "}")).
    { apply read_subjects_join; [discriminate| |exact Hl].
      rewrite length_app. pose proof (length_join_ge (x :: l)).
      fold text in H. lia. }
    rewrite Ht in *. cbv iota beta.
    rewrite Hread. cbn [mbind option_bind].
    reflexivity.
Qed.

End ReferenceJSON.

(** ** Round trip: [saveData] then [loadData] *)

Section RoundTrip.
Context {engine : Engine}.

(** After a save of [newData] that went through, the load puts back a
    profile equal to it field for field, provided the engine's
    [JSON.parse] reads back the text written for this profile. *)
Lemma saved_profile_loads_back (w : World Profile)
    (render newData : Profile) :
  let d := snapshot (heap w) newData in
  JSON_parse (JSON_stringify d) = Some d ->
  JSON_parse [] = None ->
  let w1 := saveData stringify render newData true w in
  let w2 := loadData parse true w1 in
  snapshot (heap w2) (attendanceData w2) = d
  /\ effects w2 = effects w
  /\ showNamePrompt w2 = showNamePrompt w
  /\ isLoading w2 = false.
Proof.
  intros d Hjson Hempty w1 w2. subst w2 w1.
  unfold loadData, saveData, parse, stringify. simpl. fold d.
  destruct (JSON_stringify d) as [|c text] eqn:Htext.
  { rewrite Hempty in Hjson. discriminate Hjson. }
  rewrite Hjson. simpl.
  repeat split.
  unfold snapshot at 1. simpl. rewrite snapshot_map_seq.
  reflexivity.
Qed.

(** C7: for every valid profile, when its save has gone through, the
    load that follows puts a profile into the state that is equal, field
    for field, to the one saved, with no alert and no name prompt; this
    over any engine whose JSON reads back the valid profiles it wrote
    (every string, every non-negative integer), the empty text being no
    JSON. *)
Theorem save_then_load (w : World Profile) (render newData : Profile) :
  (forall d, valid_profile d -> JSON_parse (JSON_stringify d) = Some d) ->
  JSON_parse [] = None ->
  valid_profile (snapshot (heap w) newData) ->
  let w1 := saveData stringify render newData true w in
  let w2 := loadData parse true w1 in
  snapshot (heap w2) (attendanceData w2) = snapshot (heap w) newData
  /\ effects w2 = effects w
  /\ showNamePrompt w2 = showNamePrompt w
  /\ isLoading w2 = false.
Proof.
  intros Hjson Hempty Hvalid.
  apply saved_profile_loads_back; [|exact Hempty].
  apply Hjson. exact Hvalid.
Qed.

End RoundTrip.

Lemma save_then_load_witness :
  let w :=
    ready (lit "Ann") [math 3 1; Subject.mk (lit "Art") (of_Z 0) (of_Z 2)] in
  let w1 :=
    saveData (@stringify Reference.engine) (attendanceData w)
      (attendanceData w) true w in
  let w2 := loadData (@parse Reference.engine) true w1 in
  snapshot (heap w2) (attendanceData w2)
  = mkAttendance (lit "Ann")
      [math 3 1; Subject.mk (lit "Art") (of_Z 0) (of_Z 2)].
Proof.
  intros w w1 w2.
  apply (@save_then_load Reference.engine w (attendanceData w)
           (attendanceData w)).
  - exact parse_stringify.
  - reflexivity.
  - split; [discriminate|]. split; [reflexivity|].
    split; [repeat constructor|].
    repeat constructor; try (exists 3%Z; split; [lia|reflexivity]);
      try (exists 1%Z; split; [lia|reflexivity]);
      try (exists 0%Z; split; [lia|reflexivity]);
      try (exists 2%Z; split; [lia|reflexivity]).
Defined.

(** ** Counters in exact arithmetic *)

Section CounterArithmetic.
Local Open Scope R_scope.

Lemma ties_even_ratio (a b a' b' : Z) :
  (0 < b)%Z -> (0 < b')%Z -> (a * b' = a' * b)%Z ->
  ties_even a b = ties_even a' b'.
Proof.
  intros Hb Hb' Heq.
  assert (Hq : (a / b = a' / b')%Z).
  { apply Z.le_antisymm.
    - apply Z.div_le_lower_bound; [lia|].
      pose proof (Z.mul_div_le a b Hb). nia.
    - apply Z.div_le_lower_bound; [lia|].
      pose proof (Z.mul_div_le a' b' Hb'). nia. }
  unfold ties_even.
  pose proof (Z.div_mod a b ltac:(lia)) as Ha.
  pose proof (Z.div_mod a' b' ltac:(lia)) as Ha'.
  pose proof (Z.mod_pos_bound a b Hb) as Hr.
  pose proof (Z.mod_pos_bound a' b' Hb') as Hr'.
  rewrite <- Hq in *.
  assert (Hrr : (a mod b * b' = a' mod b' * b)%Z) by nia.
  destruct (Z.ltb_spec (2 * (a mod b)) b), (Z.ltb_spec (2 * (a' mod b')) b');
    try reflexivity; try nia.
  destruct (Z.ltb_spec b (2 * (a mod b))), (Z.ltb_spec b' (2 * (a' mod b')));
    try reflexivity; nia.
Qed.

Lemma ilog2_ratio (n d n' d' : Z) :
  (0 < n)%Z -> (0 < d)%Z -> (0 < n')%Z -> (0 < d')%Z ->
  (n * d' = n' * d)%Z -> ilog2 n d = ilog2 n' d'.
Proof.
  intros Hn Hd Hn' Hd' Heq.
  assert (HR : IZR n / IZR d = IZR n' / IZR d').
  { assert (0 < IZR d) by (apply IZR_lt; lia).
    assert (0 < IZR d') by (apply IZR_lt; lia).
    apply (f_equal IZR) in Heq. rewrite !mult_IZR in Heq.
    apply (Rmult_eq_reg_r (IZR d * IZR d')); [|nra].
    field_simplify; [|lra|lra]. lra. }
  pose proof (ilog2_R n d Hn Hd) as H1.
  pose proof (ilog2_R n' d' Hn' Hd') as H2.
  rewrite HR in H1.
  assert (ilog2 n d < ilog2 n' d' + 1)%Z by (apply pw_lt_inv; lra).
  assert (ilog2 n' d' < ilog2 n d + 1)%Z by (apply pw_lt_inv; lra).
  lia.
Qed.

Lemma round_ratio (n d n' d' : Z) :
  (0 < d)%Z -> (0 < d')%Z -> (n * d' = n' * d)%Z ->
  round n d = round n' d'.
Proof.
  intros Hd Hd' Heq. unfold round.
  destruct (Z.leb_spec n 0) as [Hn|Hn], (Z.leb_spec n' 0) as [Hn'|Hn'];
    try reflexivity; try nia.
  rewrite (ilog2_ratio n d n' d') by assumption.
  set (e := Z.max (ilog2 n' d' - 52) (-1074)).
  destruct (shift n d (- e)) as [a b] eqn:Hs.
  destruct (shift n' d' (- e)) as [a' b'] eqn:Hs'.
  unfold shift in Hs, Hs'.
  assert (Hab : (0 < b /\ 0 < b' /\ a * b' = a' * b)%Z).
  { destruct (Z.leb_spec 0 (- e)); injection Hs as <- <-; injection Hs' as <- <-.
    - repeat split; try lia. nia.
    - assert (0 < 2 ^ (- - e))%Z by (apply Z.pow_pos_nonneg; lia).
      repeat split; try nia. }
  destruct Hab as (Hb & Hb' & Hr).
  rewrite (ties_even_ratio a b a' b') by assumption. reflexivity.
Qed.

Lemma add_of_Z (p q : Z) :
  (0 <= p)%Z -> (0 <= q)%Z -> (p + q < 2 ^ 53)%Z ->
  add (of_Z p) (of_Z q) = of_Z (p + q).
Proof.
  intros Hp Hq Hs.
  destruct (of_Z_exact p ltac:(lia)) as (mp & ep & Ep & Fp & Vp).
  destruct (of_Z_exact q ltac:(lia)) as (mq & eq & Eq & Fq & Vq).
  rewrite Ep, Eq.
  destruct (add_round _ _ Fp Fq) as (n & d & Hn & Hd & Hadd & Hval).
  rewrite Hadd. unfold of_Z. apply round_ratio; [exact Hd|lia|].
  rewrite Vp, Vq, <- plus_IZR in Hval.
  assert (0 < IZR d) by (apply IZR_lt; lia).
  apply eq_IZR. rewrite !mult_IZR.
  apply (f_equal (fun x => x * IZR d)) in Hval.
  field_simplify in Hval; [|lra]. lra.
Qed.

End CounterArithmetic.

(** ** Trimmed text *)

Lemma trimStart_suffix (s : jsstring) :
  exists pre, s = pre ++ trimStart s.
Proof.
  induction s as [|c s [pre IH]]; simpl.
  - exists []. reflexivity.
  - destruct (is_white c).
    + exists (c :: pre). simpl. f_equal. exact IH.
    + exists []. reflexivity.
Qed.

Lemma trimStart_head (s : jsstring) (c : N) (t : jsstring) :
  trimStart s = c :: t -> is_white c = false.
Proof.
  induction s as [|c' s IH]; simpl; [discriminate|].
  destruct (is_white c') eqn:Hw; [exact IH|].
  intros [= <- <-]. exact Hw.
Qed.

Lemma trimStart_fixed (c : N) (t : jsstring) :
  is_white c = false -> trimStart (c :: t) = c :: t.
Proof. intros H. simpl. rewrite H. reflexivity. Qed.

Lemma trimStart_idempotent (s : jsstring) :
  trimStart (trimStart s) = trimStart s.
Proof.
  destruct (trimStart s) as [|c t] eqn:E; [reflexivity|].
  apply trimStart_fixed. exact (trimStart_head _ _ _ E).
Qed.

(** [trim s] is empty or starts and ends with a character that is not
    white space. *)
Lemma trim_ends (s : jsstring) :
  trim s = []
  \/ exists c t c' t',
       trim s = c :: t /\ is_white c = false
       /\ trim s = t' ++ [c'] /\ is_white c' = false.
Proof.
  unfold trim.
  destruct (trimStart_suffix (rev (trimStart s))) as [pre Hpre].
  destruct (trimStart (rev (trimStart s))) as [|c' u] eqn:Eu; [left; reflexivity|].
  right.
  assert (Hc' : is_white c' = false) by exact (trimStart_head _ _ _ Eu).
  apply (f_equal (@rev N)) in Hpre. rewrite rev_involutive, rev_app_distr in Hpre.
  simpl in Hpre. simpl.
  destruct (rev u) as [|c t] eqn:Er; simpl in *.
  - exists c', [], c', []. repeat split; try assumption.
  - exists c, (t ++ [c']), c', (c :: t). repeat split; try assumption.
    rewrite <- app_assoc in Hpre. simpl in Hpre.
    exact (trimStart_head _ _ _ Hpre).
Qed.

Lemma trim_idempotent (s : jsstring) : trim (trim s) = trim s.
Proof.
  destruct (trim_ends s) as [E|(c & t & c' & t' & E1 & Hc & E2 & Hc')].
  - rewrite E. reflexivity.
  - unfold trim at 1. rewrite E1, (trimStart_fixed c t Hc), <- E1, E2.
    rewrite rev_app_distr. simpl. rewrite Hc'.
    change (rev (c' :: rev t')) with (rev (rev t') ++ [c']).
    rewrite rev_involutive. reflexivity.
Qed.

(** ** More on [updateAttendance] *)

Section UpdateAttendanceMore.
Context {engine : Engine}.

Lemma updateAttendance_saved (index : Z) (isPresent : bool)
    (w : World Profile) (l : loc) :
  (0 <= index)%Z ->
  subjects (attendanceData w) !! Z.to_nat index = Some l ->
  exists w',
    updateAttendance index isPresent true w = Returned w'
    /\ attendanceData w' = attendanceData w
    /\ heap w' = <[l := recorded isPresent (heap w !!! l)]> (heap w)
    /\ storage w'
       = Some (JSON_stringify (snapshot (heap w') (attendanceData w')))
    /\ effects w' = effects w
    /\ searchQuery w' = searchQuery w.
Proof.
  intros Hi Hl. unfold updateAttendance, Array_get.
  destruct (Z.ltb_spec index 0) as [Hneg|_]; [lia|].
  rewrite Hl. eexists. split; [reflexivity|].
  destruct (attendanceData w) as [n subs]. simpl. auto 6.
Qed.

Lemma updateAttendance_step (index : Z) (isPresent : bool)
    (w : World Profile) (l : loc) (p a : Z) :
  (0 <= index)%Z ->
  subjects (attendanceData w) !! Z.to_nat index = Some l ->
  l < length (heap w) ->
  Subject.present (heap w !!! l) = of_Z p ->
  Subject.absent (heap w !!! l) = of_Z a ->
  (0 <= p < 2 ^ 53 - 1)%Z -> (0 <= a < 2 ^ 53 - 1)%Z ->
  exists w',
    updateAttendance index isPresent true w = Returned w'
    /\ attendanceData w' = attendanceData w
    /\ heap w' !!! l
       = Subject.mk (Subject.name (heap w !!! l))
           (of_Z (if isPresent then p + 1 else p))
           (of_Z (if isPresent then a else a + 1))
    /\ (forall l', l' <> l -> heap w' !!! l' = heap w !!! l')
    /\ length (heap w') = length (heap w)
    /\ storage w'
       = Some (JSON_stringify (snapshot (heap w') (attendanceData w')))
    /\ effects w' = effects w.
Proof.
  intros Hi Hl Hlen Hp Ha Hpr Har.
  destruct (updateAttendance_saved index isPresent w l Hi Hl)
    as (w' & Hw' & Hdata & Hheap & Hst & Heff & _).
  exists w'. split; [exact Hw'|]. split; [exact Hdata|].
  split.
  { rewrite Hheap, list_lookup_total_insert_eq by exact Hlen.
    unfold recorded. rewrite Hp, Ha.
    destruct isPresent; rewrite add_of_Z by lia; reflexivity. }
  split.
  { intros l' Hne. rewrite Hheap.
    apply list_lookup_total_insert_ne. congruence. }
  split; [rewrite Hheap; apply length_insert|]. auto.
Qed.

End UpdateAttendanceMore.

Lemma map_lookup_total_insert (h : list Subject.t) (refs : list loc)
    (i : nat) (l : loc) (s : Subject.t) :
  NoDup refs -> refs !! i = Some l -> l < length h ->
  List.map (fun r => <[l := s]> h !!! r) refs
  = <[i := s]> (List.map (fun r => h !!! r) refs).
Proof.
  intros Hnd Hi Hl.
  change (@List.map loc Subject.t) with (@fmap list _ loc Subject.t).
  apply list_eq. intros j.
  destruct (decide (j = i)) as [->|Hne].
  - rewrite list_lookup_insert_eq.
    + rewrite list_lookup_fmap, Hi. simpl.
      rewrite list_lookup_total_insert_eq by exact Hl. reflexivity.
    + rewrite length_fmap. eapply lookup_lt_Some. exact Hi.
  - rewrite list_lookup_insert_ne by congruence.
    rewrite !list_lookup_fmap.
    destruct (refs !! j) as [r|] eqn:Hj; simpl; [|reflexivity].
    rewrite list_lookup_total_insert_ne; [reflexivity|].
    intros ->. apply Hne. exact (NoDup_lookup _ _ _ _ Hnd Hj Hi).
Qed.

Section UpdateAttendanceLists.
Context {engine : Engine}.

(** X1: one press, save going through, on a profile whose rows are distinct
    subject objects: the list shown afterwards is the old one with the
    counter of the row at [index] one step further, every other row and
    the order as they were, and the stored text is the JSON text of
    what is shown. *)
Theorem updateAttendance_row (index : Z) (isPresent : bool)
    (w : World Profile) (s : Subject.t) :
  well_formed w ->
  NoDup (subjects (attendanceData w)) ->
  (0 <= index)%Z ->
  subjects (snapshot (heap w) (attendanceData w)) !! Z.to_nat index = Some s ->
  let w' := world_of (updateAttendance index isPresent true w) in
  updateAttendance index isPresent true w = Returned w'
  /\ snapshot (heap w') (attendanceData w')
     = mkAttendance (name (attendanceData w))
         (<[Z.to_nat index := recorded isPresent s]>
            (subjects (snapshot (heap w) (attendanceData w))))
  /\ storage w'
     = Some (JSON_stringify (snapshot (heap w') (attendanceData w')))
  /\ effects w' = effects w.
Proof.
  intros Hwf Hnd Hi Hs w'.
  unfold snapshot in Hs. simpl in Hs.
  change (@List.map loc Subject.t) with (@fmap list _ loc Subject.t) in Hs.
  rewrite list_lookup_fmap in Hs.
  destruct (subjects (attendanceData w) !! Z.to_nat index) as [l|] eqn:Hl;
    [|discriminate].
  simpl in Hs. injection Hs as Hs.
  destruct (updateAttendance_saved index isPresent w l Hi Hl)
    as (w1 & Hw1 & Hdata & Hheap & Hst & Heff & _).
  subst w'. rewrite Hw1. simpl.
  split; [reflexivity|]. split; [|split; assumption].
  unfold snapshot. rewrite Hdata, Hheap. f_equal.
  rewrite Hs. apply map_lookup_total_insert; [exact Hnd|exact Hl|].
  exact (Forall_lookup_1 _ _ _ _ Hwf Hl).
Qed.

Lemma presses_S (k : nat) (index : Z) (isPresent : bool) (w : World Profile) :
  presses (S k) index isPresent w
  = world_of (updateAttendance index isPresent true (presses k index isPresent w)).
Proof. reflexivity. Qed.

(** X2: [k] presses of Present (or of Absent) on the row at [index], saves
    going through, on integer counters that stay below [2^53]: that
    counter has grown by exactly [k], the other counter, the name, every
    other subject object and the list are as they were, and nothing is
    reported. *)
Theorem presses_count (k : nat) (index : Z) (isPresent : bool)
    (w : World Profile) (l : loc) (p a : Z) :
  (0 <= index)%Z ->
  subjects (attendanceData w) !! Z.to_nat index = Some l ->
  l < length (heap w) ->
  Subject.present (heap w !!! l) = of_Z p ->
  Subject.absent (heap w !!! l) = of_Z a ->
  (0 <= p)%Z -> (0 <= a)%Z ->
  (p + Z.of_nat k < 2 ^ 53)%Z -> (a + Z.of_nat k < 2 ^ 53)%Z ->
  let w' := presses k index isPresent w in
  attendanceData w' = attendanceData w
  /\ heap w' !!! l
     = Subject.mk (Subject.name (heap w !!! l))
         (of_Z (if isPresent then p + Z.of_nat k else p))
         (of_Z (if isPresent then a else a + Z.of_nat k))
  /\ (forall l', l' <> l -> heap w' !!! l' = heap w !!! l')
  /\ length (heap w') = length (heap w)
  /\ effects w' = effects w.
Proof.
  intros Hi Hl Hlen Hp Ha Hp0 Ha0. simpl.
  induction k as [|k IH]; intros Hpk Hak.
  - simpl. rewrite !Z.add_0_r.
    destruct isPresent; rewrite <- Hp, <- Ha; destruct (heap w !!! l); auto.
  - destruct IH as (Hdata & Hcell & Hothers & Hlength & Heff); [lia|lia|].
    rewrite presses_S.
    set (wk := presses k index isPresent w) in *.
    destruct (updateAttendance_step index isPresent wk l
                (if isPresent then p + Z.of_nat k else p)%Z
                (if isPresent then a else a + Z.of_nat k)%Z)
      as (w' & Hw' & Hdata' & Hcell' & Hothers' & Hlength' & _ & Heff').
    + exact Hi.
    + rewrite Hdata. exact Hl.
    + rewrite Hlength. exact Hlen.
    + rewrite Hcell. reflexivity.
    + rewrite Hcell. reflexivity.
    + destruct isPresent; lia.
    + destruct isPresent; lia.
    + rewrite Hw'. simpl.
      split; [exact (eq_trans Hdata' Hdata)|].
      split.
      { refine (eq_trans Hcell' _). rewrite Hcell. simpl.
        destruct isPresent; do 2 f_equal; lia. }
      split.
      { intros l' Hne. exact (eq_trans (Hothers' l' Hne) (Hothers l' Hne)). }
      split; [exact (eq_trans Hlength' Hlength)|exact (eq_trans Heff' Heff)].
Qed.

End UpdateAttendanceLists.

Lemma NoDup_0_1 : NoDup [0; 1].
Proof.
  apply NoDup_ListNoDup. constructor.
  - intros [H|[]]. discriminate H.
  - constructor; [intros []|constructor].
Qed.

Lemma updateAttendance_row_witness :
  let w := ready (lit "A") [math 3 1; art 0 2] in
  let w' := world_of (@updateAttendance Reference.engine 1 false true w) in
  snapshot (heap w') (attendanceData w')
  = mkAttendance (lit "A") [math 3 1; art 0 3].
Proof.
  intros w w'.
  destruct (@updateAttendance_row Reference.engine 1 false w (art 0 2))
    as (_ & H & _).
  - repeat constructor.
  - exact NoDup_0_1.
  - lia.
  - reflexivity.
  - exact H.
Defined.

Lemma presses_count_witness :
  let w := ready (lit "A") [math 3 1; art 0 2] in
  heap (@presses Reference.engine 5 0 true w) !!! 0 = math 8 1.
Proof.
  intros w.
  refine (proj1 (proj2 (@presses_count Reference.engine 5 0 true w 0 3 1
                          _ _ _ _ _ _ _ _ _)));
    try reflexivity; simpl; lia.
Defined.

(** ** More on [deleteSubject] and [handleAddSubject] *)

Lemma filter_from_beyond {A} (index : Z) (l : list A) (k : Z) :
  (k + Z.of_nat (length l) <= index)%Z ->
  filter_from (fun _ i => negb (i =? index)%Z) k l = l.
Proof.
  revert k. induction l as [|x l IH]; intros k Hk; simpl; [reflexivity|].
  simpl in Hk.
  destruct (Z.eqb_spec k index) as [->|_]; [lia|].
  simpl. rewrite IH by lia. reflexivity.
Qed.

Lemma filter_from_sublist {A} (keep : A -> Z -> bool) (l : list A) (k : Z) :
  filter_from keep k l `sublist_of` l.
Proof.
  revert k. induction l as [|x l IH]; intros k; simpl; [constructor|].
  destruct (keep x k); [apply sublist_skip|apply sublist_cons]; apply IH.
Qed.

Section DeleteSubjectMore.
Context {engine : Engine}.

(** X3: [deleteSubject] makes no bounds check either, and needs none: for an
    index outside the list the filter keeps every subject.  The dialog
    is shown, and on Delete the unchanged profile is saved again; no
    error is reported and nothing is removed. *)
Theorem deleteSubject_out_of_range (index : Z) (w : World Profile) :
  (index < 0 \/ Z.of_nat (length (subjects (attendanceData w))) <= index)%Z ->
  let w' := deleteSubject index Delete true w in
  attendanceData w' = attendanceData w
  /\ heap w' = heap w
  /\ storage w'
     = Some (JSON_stringify (snapshot (heap w) (attendanceData w)))
  /\ effects w'
     = effects w
       ++ [Alert (lit "Delete Subject")
             (lit "Are you sure you want to delete this subject? This action cannot be undone.")].
Proof.
  intros Hi.
  assert (Hkeep : Array_filter (fun _ i => negb (i =? index)%Z)
                    (subjects (attendanceData w))
                  = subjects (attendanceData w)).
  { unfold Array_filter.
    destruct Hi; [apply filter_from_skip|apply filter_from_beyond]; lia. }
  unfold deleteSubject, saveData, stringify. simpl. rewrite Hkeep.
  destruct (attendanceData w) as [n subs]. simpl. auto.
Qed.

End DeleteSubjectMore.

Lemma deleteSubject_out_of_range_witness :
  attendanceData
    (@deleteSubject Reference.engine 2 Delete true
       (ready (lit "A") [math 3 1; art 0 2]))
  = mkAttendance (lit "A") [0; 1].
Proof.
  destruct (@deleteSubject_out_of_range Reference.engine 2
              (ready (lit "A") [math 3 1; art 0 2])) as (H & _).
  - right. simpl. lia.
  - exact H.
Defined.

Section AddSubjectMore.
Context {engine : Engine}.

(** X4: an accepted new subject whose save fails: the failure is reported,
    the profile shown and the stored item are the old ones, and the
    modal is closed with its text field emptied all the same. *)
Theorem handleAddSubject_save_fails (w : World Profile) :
  well_formed w ->
  trim (newSubjectName w) <> [] -> ~ taken w ->
  let w' := handleAddSubject false w in
  snapshot (heap w') (attendanceData w')
    = snapshot (heap w) (attendanceData w)
  /\ storage w' = storage w
  /\ effects w'
     = effects w
       ++ [Alert (lit "Error") (lit "Failed to save data. Please try again.")]
  /\ isAddModalVisible w' = false
  /\ newSubjectName w' = [].
Proof.
  intros Hwf Hn Hfree. unfold handleAddSubject.
  destruct (bool_decide_reflect (trim (newSubjectName w) = []));
    [contradiction|].
  destruct (existsb _ _) eqn:Hdup.
  { apply duplicate_test in Hdup. contradiction. }
  simpl. split; [|auto].
  unfold snapshot. simpl. f_equal.
  apply snapshot_map_app_l. exact Hwf.
Qed.

End AddSubjectMore.

Lemma not_taken_Art :
  ~ @taken Reference.engine
      (setNewSubjectName (lit " Art ") (ready (lit "A") [math 3 1])).
Proof.
  intros [l [Hin Heq]]. vm_compute in Hin.
  destruct Hin as [<-|[]]. vm_compute in Heq. discriminate Heq.
Qed.

Lemma handleAddSubject_save_fails_witness :
  let w := setNewSubjectName (lit " Art ") (ready (lit "A") [math 3 1]) in
  let w' := @handleAddSubject Reference.engine false w in
  snapshot (heap w') (attendanceData w') = mkAttendance (lit "A") [math 3 1]
  /\ isAddModalVisible w' = false.
Proof.
  intros w w'.
  destruct (@handleAddSubject_save_fails Reference.engine w)
    as (H & _ & _ & Hm & _).
  - repeat constructor.
  - vm_compute. discriminate.
  - exact not_taken_Art.
  - split; [exact H|exact Hm].
Defined.

(** ** The name prompt: [handleNameSubmit] *)

Section NamePrompt.
Context {engine : Engine}.

(** X5: [handleNameSubmit]: a name that is empty once trimmed is refused
    with an alert and the prompt stays as it is; any other name is
    trimmed and becomes the profile name (so it is not empty and has no
    white space at either end), the subjects are left alone, the prompt
    is closed and its field emptied, and the stored text is the JSON
    text of the profile now shown. *)
Theorem handleNameSubmit_spec (ok : bool) (p : Prompt) :
  let n := trim (tempName p) in
  (n = [] ->
   handleNameSubmit ok p
   = mkPrompt (alert_error "Please enter a valid name" (world p))
       (tempName p))
  /\ (n <> [] ->
      let p' := handleNameSubmit true p in
      let w' := world p' in
      name (attendanceData w') = n
      /\ trim (name (attendanceData w')) = name (attendanceData w')
      /\ subjects (attendanceData w') = subjects (attendanceData (world p))
      /\ heap w' = heap (world p)
      /\ showNamePrompt w' = false
      /\ tempName p' = []
      /\ storage w'
         = Some (JSON_stringify (snapshot (heap w') (attendanceData w')))
      /\ effects w' = effects (world p)).
Proof.
  intros n. subst n. unfold handleNameSubmit.
  destruct (bool_decide_reflect (trim (tempName p) = [])) as [He|Hne].
  - split; [reflexivity|]. intros H. contradiction.
  - split; [intros H; contradiction|]. intros _. simpl.
    split; [reflexivity|]. split; [apply trim_idempotent|]. auto 8.
Qed.

(** X6: a name whose save fails: the failure is reported and the profile
    and the stored item are the old ones, but the prompt is closed and
    its field emptied; a profile that had no name is left without one
    and without the prompt that asks for it. *)
Theorem handleNameSubmit_save_fails (p : Prompt) :
  trim (tempName p) <> [] ->
  let p' := handleNameSubmit false p in
  attendanceData (world p') = attendanceData (world p)
  /\ storage (world p') = storage (world p)
  /\ effects (world p')
     = effects (world p)
       ++ [Alert (lit "Error") (lit "Failed to save data. Please try again.")]
  /\ showNamePrompt (world p') = false
  /\ tempName p' = [].
Proof.
  intros Hne. unfold handleNameSubmit.
  destruct (bool_decide_reflect (trim (tempName p) = [])); [contradiction|].
  simpl. auto.
Qed.

End NamePrompt.

Lemma handleNameSubmit_spec_witness :
  name
    (attendanceData
       (world
          (@handleNameSubmit Reference.engine true
             (mkPrompt (initial None) (lit "  Ann ")))))
  = lit "Ann".
Proof.
  destruct (@handleNameSubmit_spec Reference.engine true
              (mkPrompt (initial None) (lit "  Ann "))) as (_ & H).
  destruct H as (H & _).
  - vm_compute. discriminate.
  - exact H.
Defined.

Lemma handleNameSubmit_save_fails_witness :
  let p := @handleNameSubmit Reference.engine false
             (mkPrompt (setShowNamePrompt true (initial None)) (lit "Ann")) in
  name (attendanceData (world p)) = [] /\ showNamePrompt (world p) = false.
Proof.
  intros p.
  destruct (@handleNameSubmit_save_fails Reference.engine
              (mkPrompt (setShowNamePrompt true (initial None)) (lit "Ann")))
    as (H & _ & _ & Hp & _).
  - vm_compute. discriminate.
  - split; [exact (f_equal name H)|exact Hp].
Defined.

(** ** An invariant of the subject names *)

Section DistinctNames.
Context {engine : Engine}.

Lemma distinct_names_sub (w w' : World Profile) :
  subjects (attendanceData w') `sublist_of` subjects (attendanceData w) ->
  length (heap w) <= length (heap w') ->
  (forall l, l < length (heap w) ->
     Subject.name (heap w' !!! l) = Subject.name (heap w !!! l)) ->
  distinct_names w -> distinct_names w'.
Proof.
  intros Hsub Hlen Hnames (Hwf & Hnd & Htrim & Hinj).
  unfold well_formed in Hwf.
  assert (Hin : forall l, In l (subjects (attendanceData w')) ->
                  In l (subjects (attendanceData w))).
  { intros l H. apply list_elem_of_In. apply list_elem_of_In in H.
    eapply elem_of_sublist; eassumption. }
  assert (Hlt : forall l, In l (subjects (attendanceData w)) ->
                  l < length (heap w)).
  { apply List.Forall_forall. exact Hwf. }
  repeat split.
  - apply List.Forall_forall. intros l H.
    apply Hin, Hlt in H. lia.
  - eapply sublist_NoDup; eassumption.
  - apply List.Forall_forall. intros l H.
    rewrite Hnames by (apply Hlt, Hin, H).
    rewrite List.Forall_forall in Htrim. apply Htrim, Hin, H.
  - intros l l' Hl Hl'.
    rewrite !Hnames by (apply Hlt, Hin; assumption).
    apply Hinj; apply Hin; assumption.
Qed.

(** X7: [handleAddSubject] keeps the names of the subjects distinct: if the
    subjects are distinct objects with non-empty trimmed names that
    differ even without regard to case, they still are after the
    handler, whatever was typed and whether or not the save goes
    through. *)
Theorem handleAddSubject_distinct_names (ok : bool) (w : World Profile) :
  distinct_names w -> distinct_names (handleAddSubject ok w).
Proof.
  intros Hd. unfold handleAddSubject.
  destruct (bool_decide_reflect (trim (newSubjectName w) = [])) as [He|Hne].
  { revert Hd. apply distinct_names_sub; simpl; auto. }
  destruct (existsb _ _) eqn:Hdup.
  { revert Hd. apply distinct_names_sub; simpl; auto. }
  assert (Hfree : ~ taken w).
  { intros Ht. apply duplicate_test in Ht. congruence. }
  set (s := Subject.mk (trim (newSubjectName w)) (of_Z 0) (of_Z 0)).
  destruct ok; simpl.
  - destruct Hd as (Hwf & Hnd & Htrim & Hinj).
    unfold well_formed in Hwf.
    assert (Hlt : forall l, In l (subjects (attendanceData w)) ->
                    l < length (heap w)).
    { apply List.Forall_forall. exact Hwf. }
    assert (Hold : forall l, In l (subjects (attendanceData w)) ->
              (heap w ++ [s]) !!! l = heap w !!! l).
    { intros l H. apply lookup_total_app_l, Hlt, H. }
    assert (Hnew : (heap w ++ [s]) !!! length (heap w) = s).
    { apply list_lookup_total_middle. reflexivity. }
    unfold distinct_names, well_formed. simpl.
    repeat split.
    + apply Forall_app. split.
      * eapply Forall_impl; [exact Hwf|]. simpl. intros l H.
        rewrite length_app. simpl. lia.
      * constructor; [|constructor]. rewrite length_app. simpl. lia.
    + apply NoDup_app. repeat split.
      * exact Hnd.
      * intros l H Hl. apply list_elem_of_In in H. apply Hlt in H.
        apply list_elem_of_In in Hl. destruct Hl as [<-|[]]. lia.
      * apply NoDup_singleton.
    + apply Forall_app. split.
      * apply List.Forall_forall. intros l H.
        rewrite Hold by exact H.
        rewrite List.Forall_forall in Htrim. apply Htrim, H.
      * constructor; [|constructor]. unfold loc. rewrite Hnew. simpl.
        split; [exact Hne|apply trim_idempotent].
    + intros l l' Hl Hl' Heq. unfold loc in *.
      apply in_app_or in Hl. apply in_app_or in Hl'.
      destruct Hl as [Hl|[<-|[]]], Hl' as [Hl'|[<-|[]]].
      * rewrite !Hold in Heq by assumption. apply Hinj; assumption.
      * rewrite Hold, Hnew in Heq by assumption. simpl in Heq.
        exfalso. apply Hfree. exists l. split; [exact Hl|exact Heq].
      * rewrite Hnew, (Hold l') in Heq by exact Hl'. simpl in Heq.
        exfalso. apply Hfree. exists l'. split; [exact Hl'|]. symmetry.
        exact Heq.
      * reflexivity.
  - revert Hd. apply distinct_names_sub; simpl.
    + reflexivity.
    + rewrite length_app. lia.
    + intros l Hl. rewrite lookup_total_app_l by exact Hl. reflexivity.
Qed.

(** X8: [updateAttendance] and [deleteSubject] keep the names of the
    subjects distinct as well, for every index, button and outcome of
    the save: a counter update leaves the name of the updated object
    alone, and a delete only drops a row. *)
Theorem update_delete_distinct_names (index : Z) (isPresent ok : bool)
    (pressed : button) (w : World Profile) :
  distinct_names w ->
  distinct_names (world_of (updateAttendance index isPresent ok w))
  /\ distinct_names (deleteSubject index pressed ok w).
Proof.
  intros Hd. split.
  - unfold updateAttendance.
    destruct (Array_get _ _) as [l|]; [|exact Hd].
    revert Hd.
    destruct ok; apply distinct_names_sub; simpl;
      try reflexivity; try (rewrite length_insert; lia);
      intros l' Hl';
      (destruct (decide (l' = l)) as [->|Hne];
       [rewrite list_lookup_total_insert_eq by exact Hl';
        destruct isPresent; reflexivity
       |rewrite list_lookup_total_insert_ne by congruence; reflexivity]).
  - revert Hd. unfold deleteSubject.
    destruct pressed, ok; apply distinct_names_sub; simpl;
      try reflexivity; try lia; auto; apply filter_from_sublist.
Qed.

End DistinctNames.

Lemma distinct_names_Math :
  @distinct_names Reference.engine
    (setNewSubjectName (lit "math ") (ready (lit "A") [math 3 1])).
Proof.
  split; [repeat constructor|]. split.
  { apply NoDup_ListNoDup. constructor; [intros []|constructor]. }
  split.
  { constructor; [|constructor]. split; [discriminate|reflexivity]. }
  intros l l' [<-|[]] [<-|[]] _. reflexivity.
Qed.

Lemma handleAddSubject_distinct_names_witness :
  @distinct_names Reference.engine
    (@handleAddSubject Reference.engine true
       (setNewSubjectName (lit "math ") (ready (lit "A") [math 3 1]))).
Proof.
  apply (@handleAddSubject_distinct_names Reference.engine).
  exact distinct_names_Math.
Defined.

Lemma update_delete_distinct_names_witness :
  @distinct_names Reference.engine
    (@deleteSubject Reference.engine 0 Delete false
       (setNewSubjectName (lit "math ") (ready (lit "A") [math 3 1]))).
Proof.
  apply (@update_delete_distinct_names Reference.engine 0 true false Delete).
  exact distinct_names_Math.
Defined.

(** ** The totals: [calculateTotalAttendance] *)

Lemma sum_of_nonneg (l : list Z) : Forall (fun x => 0 <= x)%Z l -> (0 <= sum_of l)%Z.
Proof. induction 1; simpl; lia. Qed.

Lemma fold_add_of_Z {A} (f : A -> number) (g : A -> Z) (l : list A) :
  (forall x, In x l -> f x = of_Z (g x) /\ (0 <= g x)%Z) ->
  forall k,
    (0 <= k)%Z -> (k + sum_of (List.map g l) < 2 ^ 53)%Z ->
    fold_left (fun acc x => add acc (f x)) l (of_Z k)
    = of_Z (k + sum_of (List.map g l)).
Proof.
  induction l as [|x l IH]; intros Hf k Hk Hs; simpl in *.
  - rewrite Z.add_0_r. reflexivity.
  - destruct (Hf x (or_introl eq_refl)) as [Hx Hg].
    assert (0 <= sum_of (List.map g l))%Z.
    { apply sum_of_nonneg, List.Forall_forall. intros z Hz.
      apply in_map_iff in Hz. destruct Hz as (y & <- & Hy).
      apply Hf. right. exact Hy. }
    rewrite Hx, add_of_Z by lia.
    rewrite IH by (auto; lia). f_equal. lia.
Qed.

Lemma fold_left_over_map {A B C} (f : A -> B -> A) (g : C -> B) (l : list C)
    (a : A) :
  fold_left f (List.map g l) a = fold_left (fun a x => f a (g x)) l a.
Proof. revert a. induction l; simpl; auto. Qed.

Section Totals.
Context {engine : Engine}.

(** X9: [calculateTotalAttendance] on integer counters whose grand total
    stays below [2^53]: [present] is the sum of the present counters,
    [total] the sum of all counters, both exact, and [percentage] is
    [calculatePercentage] of the two sums (not a mean of the subjects'
    percentages); with no subjects it is 0, 0 and ["0.00"]. *)
Theorem calculateTotalAttendance_spec (w : World Profile)
    (entries : list (jsstring * (Z * Z))) :
  subjects (shown w) = List.map subject_of entries ->
  Forall (fun e => 0 <= fst (snd e) /\ 0 <= snd (snd e))%Z entries ->
  let P := sum_of (List.map (fun e => fst (snd e)) entries) in
  let A := sum_of (List.map (fun e => snd (snd e)) entries) in
  (P + A < 2 ^ 53)%Z ->
  calculateTotalAttendance w
  = Total.mk (of_Z P) (of_Z (P + A)) (calculatePercentage (of_Z P) (of_Z A))
  /\ (entries = [] ->
      calculateTotalAttendance w = Total.mk (of_Z 0) (of_Z 0) (lit "0.00")).
Proof.
  intros Hs Hpos P A Hsum.
  assert (HP : (0 <= P)%Z).
  { apply sum_of_nonneg, List.Forall_forall. intros z Hz.
    apply in_map_iff in Hz. destruct Hz as (e & <- & He).
    rewrite List.Forall_forall in Hpos. apply Hpos, He. }
  assert (HA : (0 <= A)%Z).
  { apply sum_of_nonneg, List.Forall_forall. intros z Hz.
    apply in_map_iff in Hz. destruct Hz as (e & <- & He).
    rewrite List.Forall_forall in Hpos. apply Hpos, He. }
  assert (Hcalc : calculateTotalAttendance w
    = Total.mk (of_Z P) (of_Z (P + A)) (calculatePercentage (of_Z P) (of_Z A))).
  { unfold calculateTotalAttendance. unfold shown in Hs. rewrite Hs.
    rewrite !fold_left_over_map.
    rewrite (fold_add_of_Z (fun e => Subject.present (subject_of e))
               (fun e => fst (snd e)) entries), Z.add_0_l.
    - rewrite (fold_add_of_Z (fun e => Subject.absent (subject_of e))
                 (fun e => snd (snd e)) entries), Z.add_0_l.
      + fold P A. rewrite add_of_Z by lia. reflexivity.
      + intros e He. split; [reflexivity|].
        rewrite List.Forall_forall in Hpos. apply Hpos, He.
      + lia.
      + fold A. lia.
    - intros e He. split; [reflexivity|].
      rewrite List.Forall_forall in Hpos. apply Hpos, He.
    - lia.
    - fold P. lia. }
  split; [exact Hcalc|].
  intros ->. rewrite Hcalc. reflexivity.
Qed.

End Totals.

Lemma calculateTotalAttendance_spec_witness :
  @calculateTotalAttendance Reference.engine
    (ready (lit "A") [math 3 1; art 2 2])
  = Total.mk (of_Z 5) (of_Z 8) (lit "62.50").
Proof.
  destruct (@calculateTotalAttendance_spec Reference.engine
              (ready (lit "A") [math 3 1; art 2 2])
              [(lit "Math", (3, 1)); (lit "Art", (2, 2))]%Z) as (H & _).
  - reflexivity.
  - repeat constructor; simpl; lia.
  - simpl. lia.
  - exact H.
Defined.

(** ** More on [exportToCSV] *)

Lemma digits_inj (u v : Decimal.uint) : digits u = digits v -> u = v.
Proof.
  revert v. induction u; destruct v; simpl; intros H;
    try discriminate; try reflexivity;
    injection H as H; f_equal; apply IHu; exact H.
Qed.

Lemma decimal_inj (n n' : Z) :
  (0 <= n)%Z -> (0 <= n')%Z -> decimal n = decimal n' -> n = n'.
Proof.
  intros Hn Hn' H. unfold decimal in H. apply digits_inj in H.
  apply (f_equal N.of_uint) in H.
  rewrite !DecimalN.Unsigned.of_to in H. lia.
Qed.

Ltac export_in H :=
  repeat (destruct H as [H|H]; [try discriminate H|]);
  try contradiction;
  try (injection H as <-; repeat split; eexists; reflexivity).

Section ExportMore.
Context {engine : Engine}.

(** X10: [exportToCSV] only reads: the profile, the subject objects and the
    stored item are never changed, whatever the outside does.  The file
    is shared only after it has been written and sharing has been found
    available, under the very name it was written to; and no alert is
    raised exactly when there was a subject to export and the write,
    the availability test and the share all went through. *)
Theorem exportToCSV_only_reads (env : ExportEnv) (w : World Profile) :
  let w' := exportToCSV env w in
  attendanceData w' = attendanceData w
  /\ heap w' = heap w
  /\ storage w' = storage w
  /\ exists new,
       effects w' = effects w ++ new
       /\ (forall fileUri,
             In (Share fileUri) new ->
             writeAsStringAsync_ok env = true
             /\ isAvailableAsync env = Some true
             /\ exists contents, head new = Some (WriteAsString fileUri contents))
       /\ ((forall title message, ~ In (Alert title message) new)
           <-> subjects (attendanceData w) <> []
               /\ writeAsStringAsync_ok env = true
               /\ isAvailableAsync env = Some true
               /\ shareAsync_ok env = true).
Proof.
  unfold exportToCSV.
  destruct (subjects (attendanceData w)) as [|l subs] eqn:Hsub;
    cbn [length Nat.eqb].
  { unfold alert_error, call. cbn [attendanceData heap storage effects].
    split; [reflexivity|]. split; [reflexivity|]. split; [reflexivity|].
    eexists. split; [reflexivity|]. split.
    - intros f [H|[]]. discriminate H.
    - split.
      + intros H. exfalso. eapply H. left. reflexivity.
      + intros (H & _). contradiction. }
  set (content := csvContent _).
  set (fileUri := documentDirectory env ++ _).
  destruct (writeAsStringAsync_ok env), (isAvailableAsync env) as [[|]|],
    (shareAsync_ok env); cbn [negb];
    unfold alert_error, call; cbn [attendanceData heap storage effects];
    (split; [reflexivity|]; split; [reflexivity|]; split; [reflexivity|]);
    rewrite <- ?app_assoc; cbn [app];
    (eexists; split; [reflexivity|]; split;
     [ intros f H; cbn [In] in H; export_in H
     | split;
       [ intros H;
         first [ exfalso; eapply H; right; left; reflexivity
               | exfalso; eapply H; right; right; left; reflexivity
               | repeat split; discriminate ]
       | intros (_ & H1 & H2 & H3) t m Hin; cbn [In] in Hin;
         first [ discriminate H1 | discriminate H2 | discriminate H3
               | export_in Hin ] ] ]).
Qed.

(** X11: the exported file is [attendance_<t>.csv] in the document
    directory, with the time [t] of the export in decimal digits; two
    exports at different times go to different files. *)
Theorem exportToCSV_file_name (env : ExportEnv) (w : World Profile) (t : Z) :
  subjects (attendanceData w) <> [] ->
  now env = of_Z t -> (0 <= t < 2 ^ 53)%Z ->
  let file t := documentDirectory env ++ lit "attendance_" ++ decimal t
                  ++ lit ".csv" in
  (exists later,
     effects (exportToCSV env w)
     = effects w ++ WriteAsString (file t) (csvContent (subjects (shown w)))
                      :: later)
  /\ forall t', (0 <= t')%Z -> file t = file t' -> t = t'.
Proof.
  intros Hne Hnow Ht file. split.
  - unfold exportToCSV.
    destruct (subjects (attendanceData w)) as [|l subs] eqn:Hsub;
      [contradiction|].
    simpl. rewrite Hnow, Number_toString_of_Z by exact Ht.
    destruct (writeAsStringAsync_ok env), (isAvailableAsync env) as [[|]|],
      (shareAsync_ok env); simpl; rewrite <- ?app_assoc; simpl;
      eexists; unfold shown, snapshot; simpl; rewrite Hsub; reflexivity.
  - intros t' Ht' H. unfold file in H.
    apply app_inv_head, app_inv_head, app_inv_tail in H.
    apply decimal_inj; [lia|exact Ht'|exact H].
Qed.

End ExportMore.

Lemma exportToCSV_file_name_witness :
  exists later,
    effects
      (@exportToCSV Reference.engine
         (Build_ExportEnv (lit "file:///docs/") (of_Z 1700000000000)
            true (Some false) true)
         (ready (lit "A") [math 3 1]))
    = WriteAsString (lit "file:///docs/attendance_1700000000000.csv")
        (csv_header ++ [10%N] ++ lit "Math,3,1,75.00%") :: later.
Proof.
  destruct (@exportToCSV_file_name Reference.engine
              (Build_ExportEnv (lit "file:///docs/") (of_Z 1700000000000)
                 true (Some false) true)
              (ready (lit "A") [math 3 1]) 1700000000000) as (H & _).
  - discriminate.
  - reflexivity.
  - lia.
  - destruct H as [later H]. exists later. exact H.
Defined.

Lemma occurrences_app (c : N) (s t : jsstring) :
  occurrences c (s ++ t) = occurrences c s + occurrences c t.
Proof. unfold occurrences. rewrite List.filter_app, length_app. reflexivity. Qed.

Lemma occurrences_digits (c : N) (u : Decimal.uint) :
  (c < 48)%N -> occurrences c (digits u) = 0.
Proof.
  intros Hc. unfold occurrences.
  induction u; simpl; try reflexivity;
    match goal with
    | |- context [N.eqb c ?d] =>
        destruct (N.eqb_spec c d) as [->|_]; [lia|exact IHu]
    end.
Qed.

Lemma occurrences_fixed2 (c : N) (n : Z) :
  (c < 46)%N -> (0 <= n)%Z -> occurrences c (fixed2 n) = 0.
Proof.
  intros Hc Hn. unfold fixed2, decimal. change (lit ".") with [46%N].
  rewrite !occurrences_app, occurrences_digits by lia.
  pose proof (Z.mod_pos_bound (n / 10) 10 ltac:(lia)).
  pose proof (Z.mod_pos_bound n 10 ltac:(lia)).
  unfold occurrences. cbn [List.filter].
  destruct (N.eqb_spec c 46) as [->|_]; [lia|].
  destruct (N.eqb_spec c (Z.to_N (48 + (n / 10) mod 10))); [lia|].
  destruct (N.eqb_spec c (Z.to_N (48 + n mod 10))); [lia|].
  reflexivity.
Qed.

Lemma occurrences_join (c sep : N) (lines : list jsstring) :
  lines <> [] ->
  occurrences c (join [sep] lines)
  = sum_list (List.map (occurrences c) lines)
    + (if (c =? sep)%N then length lines - 1 else 0).
Proof.
  induction lines as [|l rest IH]; intros Hne; [contradiction|].
  destruct rest as [|l' rest].
  - simpl. destruct (c =? sep)%N; lia.
  - replace (join [sep] (l :: l' :: rest))
      with (l ++ [sep] ++ join [sep] (l' :: rest)) by reflexivity.
    rewrite !occurrences_app, IH by discriminate.
    unfold occurrences at 2. cbn [List.filter List.map sum_list length].
    unfold Datatypes.id. destruct (c =? sep)%N; cbn [length]; lia.
Qed.

Section ExportFields.
Context {engine : Engine}.

Lemma occurrences_csv_line (c : N) (entry : jsstring * (Z * Z)) :
  (c < 46)%N -> c <> 37%N ->
  (0 <= fst (snd entry) < 2 ^ 53)%Z -> (0 <= snd (snd entry) < 2 ^ 53)%Z ->
  occurrences c (csv_line (subject_of entry))
  = occurrences c (fst entry) + (if (c =? 44)%N then 3 else 0).
Proof.
  intros Hc Hc' Hp Ha. destruct entry as [subject [p a]].
  cbn [fst snd] in *. unfold csv_line, subject_of.
  cbn [fst snd Subject.name Subject.present Subject.absent].
  rewrite !Number_toString_of_Z by assumption.
  destruct (calculatePercentage_core (of_Z p) (of_Z a))
    as (n & Hn & Hcalc & _).
  { apply of_Z_finite. unfold MAX_VALUE. lia. }
  { apply of_Z_finite. unfold MAX_VALUE. lia. }
  rewrite Hcalc, !occurrences_app, occurrences_fixed2 by lia.
  unfold decimal. rewrite !occurrences_digits by lia.
  change (lit ",") with [44%N]. change (lit "%") with [37%N].
  unfold occurrences. cbn [List.filter].
  destruct (N.eqb_spec c 44) as [->|_]; [reflexivity|].
  destruct (N.eqb_spec c 37) as [->|_]; [contradiction|]. cbn [length]. lia.
Qed.

(** X12: the export neither quotes nor escapes a name.  On integer counters
    below [2^53], a line has its three separating commas and every
    comma of the subject's name besides, and the text has one line feed
    for each subject and every line feed of a name besides: the file
    has the columns and the lines of the table only when no name
    contains a comma or a line feed. *)
Theorem exportToCSV_does_not_escape (entries : list (jsstring * (Z * Z))) :
  entries <> [] ->
  Forall (fun e => 0 <= fst (snd e) < 2 ^ 53 /\ 0 <= snd (snd e) < 2 ^ 53)%Z
    entries ->
  Forall (fun e =>
            occurrences 44 (csv_line (subject_of e))
            = 3 + occurrences 44 (fst e))
    entries
  /\ occurrences 10 (csvContent (List.map subject_of entries))
     = length entries
       + sum_list (List.map (fun e => occurrences 10 (fst e)) entries).
Proof.
  intros Hne Hc. split.
  - eapply Forall_impl; [exact Hc|]. intros e [Hp Ha]. cbv beta.
    rewrite occurrences_csv_line by (try assumption; lia).
    change (44 =? 44)%N with true. cbv iota. lia.
  - rewrite csvContent_lines by (destruct entries; [contradiction|discriminate]).
    rewrite occurrences_join by discriminate.
    change (10 =? 10)%N with true. cbv iota.
    cbn [List.map sum_list sum_list_with length]. rewrite !List.map_map.
    replace (List.map (fun e => occurrences 10 (@csv_line engine (subject_of e)))
               entries)
      with (List.map (fun e => occurrences 10 (fst e)) entries).
    + rewrite length_map. change (occurrences 10 csv_header) with 0.
      unfold Datatypes.id. lia.
    + apply map_ext_in. intros e He.
      rewrite List.Forall_forall in Hc. destruct (Hc e He) as [Hp Ha].
      rewrite occurrences_csv_line by (try assumption; lia).
      change (10 =? 44)%N with false. cbv iota. lia.
Qed.

End ExportFields.

Lemma exportToCSV_does_not_escape_witness :
  occurrences 44
    (@csv_line Reference.engine
       (subject_of (lit "Art, applied", (3, 1)%Z)))
  = 4.
Proof.
  destruct (@exportToCSV_does_not_escape Reference.engine
              [(lit "Art, applied", (3, 1)%Z)]) as (H & _).
  - discriminate.
  - repeat constructor; simpl; lia.
  - inversion H as [|e l He Hl]. exact He.
Defined.

(** ** The rows of the screen *)

Lemma filter_sublist {A} (f : A -> bool) (l : list A) :
  List.filter f l `sublist_of` l.
Proof.
  induction l as [|x l IH]; simpl; [constructor|].
  destruct (f x); [apply sublist_skip|apply sublist_cons]; exact IH.
Qed.

Lemma filter_narrows {A} (f g : A -> bool) (l : list A) :
  (forall x, f x = true -> g x = true) ->
  List.filter f l `sublist_of` List.filter g l.
Proof.
  intros Hfg. induction l as [|x l IH]; simpl; [constructor|].
  destruct (f x) eqn:Hf.
  - rewrite (Hfg x Hf). apply sublist_skip. exact IH.
  - destruct (g x); [apply sublist_cons|]; exact IH.
Qed.

Lemma contains_trans (s t u : jsstring) :
  contains s t -> contains t u -> contains s u.
Proof.
  intros (b & a & ->) (b' & a' & ->).
  exists (b ++ b'), (a' ++ a). rewrite <- !app_assoc. reflexivity.
Qed.

Section Rows.
Context {engine : Engine}.

Lemma row_in_range (index : nat) (w : World Profile) (shown_row : loc) :
  filteredSubjects w !! index = Some shown_row ->
  exists l, subjects (attendanceData w) !! index = Some l.
Proof.
  intros H. apply lookup_lt_is_Some_2.
  apply lookup_lt_Some in H.
  pose proof (sublist_length _ _
                (filter_sublist
                   (fun subject =>
                      includes (toLowerCase (Subject.name (heap w !!! subject)))
                        (toLowerCase (searchQuery w)))
                   (subjects (attendanceData w)))) as Hlen.
  unfold filteredSubjects in H. lia.
Qed.

(** X13: a press on Present or Absent in a row of the screen never raises:
    the rows are no more than the subjects, so the row's position is
    within the subjects list.  The object updated is the one at that
    position of the whole list: the subject shown in the row keeps its
    counters when the two differ (the search has filtered out a subject
    above), and they are the same one when the search field is empty. *)
Theorem row_updateAttendance_spec (index : nat) (isPresent ok : bool)
    (w : World Profile) (c : completion) :
  row_updateAttendance index isPresent ok w = Some c ->
  exists w' shown_row l,
    c = Returned w'
    /\ filteredSubjects w !! index = Some shown_row
    /\ subjects (attendanceData w) !! index = Some l
    /\ heap w'
       = <[l := recorded isPresent (heap w !!! l)]> (heap w)
    /\ (shown_row <> l -> heap w' !!! shown_row = heap w !!! shown_row)
    /\ (toLowerCase [] = [] -> searchQuery w = [] -> shown_row = l).
Proof.
  unfold row_updateAttendance.
  destruct (filteredSubjects w !! index) as [shown_row|] eqn:Hrow;
    [|discriminate].
  intros [= <-].
  destruct (row_in_range index w shown_row Hrow) as [l Hl].
  assert (Hheap : exists w',
            updateAttendance (Z.of_nat index) isPresent ok w = Returned w'
            /\ heap w'
               = <[l := recorded isPresent (heap w !!! l)]> (heap w)).
  { destruct ok.
    - destruct (updateAttendance_saved (Z.of_nat index) isPresent w l)
        as (w' & Hw' & _ & Hh & _); [lia|rewrite Nat2Z.id; exact Hl|].
      exists w'. split; [exact Hw'|exact Hh].
    - destruct (updateAttendance_failed_save (Z.of_nat index) isPresent w l)
        as (w' & Hw' & _ & _ & _ & Hh); [rewrite Nat2Z.id; exact Hl|lia|].
      exists w'. split; [exact Hw'|exact Hh]. }
  destruct Hheap as (w' & Hw' & Hh).
  exists w', shown_row, l.
  split; [exact Hw'|]. split; [reflexivity|]. split; [exact Hl|].
  split; [exact Hh|]. split.
  - intros Hne. rewrite Hh.
    apply list_lookup_total_insert_ne. congruence.
  - intros Hlow Hq. unfold filteredSubjects in Hrow.
    rewrite Hq, Hlow, filter_all in Hrow by (intros; apply includes_empty).
    congruence.
Qed.

(** X14: the Delete button of a row removes the subject at the row's
    position in the whole list, whichever subject the row shows:
    over distinct subjects, when the two differ the one shown is still
    in the profile afterwards and the other one is gone. *)
Theorem row_deleteSubject_spec (index : nat) (w w' : World Profile)
    (shown_row l : loc) :
  NoDup (subjects (attendanceData w)) ->
  filteredSubjects w !! index = Some shown_row ->
  subjects (attendanceData w) !! index = Some l ->
  row_deleteSubject index Delete true w = Some w' ->
  subjects (attendanceData w')
  = take index (subjects (attendanceData w))
    ++ drop (S index) (subjects (attendanceData w))
  /\ ~ In l (subjects (attendanceData w'))
  /\ (shown_row <> l -> In shown_row (subjects (attendanceData w'))).
Proof.
  intros Hnd Hrow Hl. unfold row_deleteSubject. rewrite Hrow.
  intros [= Hw'].
  assert (Hnew : subjects (attendanceData w')
                 = take index (subjects (attendanceData w))
                   ++ drop (S index) (subjects (attendanceData w))).
  { rewrite <- Hw'. unfold deleteSubject, saveData. simpl.
    rewrite Array_filter_delete by lia. rewrite Nat2Z.id. reflexivity. }
  split; [exact Hnew|]. rewrite Hnew.
  assert (Hsplit : subjects (attendanceData w)
                   = take index (subjects (attendanceData w))
                     ++ l :: drop (S index) (subjects (attendanceData w))).
  { symmetry. apply take_drop_middle. exact Hl. }
  split.
  - rewrite Hsplit in Hnd. apply NoDup_app in Hnd.
    destruct Hnd as (_ & Hdisj & Hnd). apply NoDup_cons in Hnd.
    intros Hin. apply in_app_or in Hin. destruct Hin as [Hin|Hin].
    + apply (Hdisj l); [apply list_elem_of_In; exact Hin|]. left.
    + apply (proj1 Hnd). apply list_elem_of_In. exact Hin.
  - intros Hne.
    assert (Hin : In shown_row (subjects (attendanceData w))).
    { apply list_elem_of_In.
      eapply elem_of_sublist; [|apply filter_sublist].
      eapply list_elem_of_lookup_2. exact Hrow. }
    rewrite Hsplit in Hin. apply in_app_or in Hin.
    apply in_or_app. destruct Hin as [Hin|[Hin|Hin]]; auto. congruence.
Qed.

(** X15: typing more into the search field only narrows the list: when the
    lower-cased new query contains the lower-cased old one, every row
    of the new list is a row of the old list, in the same order. *)
Theorem filteredSubjects_narrows (w : World Profile) (q q' : jsstring) :
  contains (toLowerCase q') (toLowerCase q) ->
  filteredSubjects (setSearchQuery q' w)
    `sublist_of` filteredSubjects (setSearchQuery q w)
  /\ filteredSubjects (setSearchQuery q w)
       `sublist_of` subjects (attendanceData w).
Proof.
  intros Hq. split; [|apply filter_sublist].
  unfold filteredSubjects. simpl. apply filter_narrows.
  intros l Hl. apply includes_spec. apply includes_spec in Hl.
  eapply contains_trans; eassumption.
Qed.

End Rows.

Lemma row_updateAttendance_spec_witness :
  let w := setSearchQuery (lit "art") (ready (lit "A") [math 3 1; art 0 2]) in
  @filteredSubjects Reference.engine w = [1]
  /\ exists w',
       @row_updateAttendance Reference.engine 0 true true w
       = Some (Returned w')
       /\ heap w' = [math 4 1; art 0 2].
Proof.
  intros w. split; [reflexivity|].
  destruct (@row_updateAttendance_spec Reference.engine 0 true true w
              (@updateAttendance Reference.engine 0 true true w))
    as (w' & shown_row & l & Hc & Hrow & Hl & Hh & _).
  - reflexivity.
  - exists w'. split; [exact (f_equal Some Hc)|].
    injection Hl as <-. exact Hh.
Defined.

Lemma row_deleteSubject_spec_witness :
  let w := setSearchQuery (lit "art") (ready (lit "A") [math 3 1; art 0 2]) in
  @filteredSubjects Reference.engine w = [1]
  /\ subjects
       (attendanceData (@deleteSubject Reference.engine 0 Delete true w))
     = [1].
Proof.
  intros w. split; [reflexivity|].
  destruct (@row_deleteSubject_spec Reference.engine 0 w
              (@deleteSubject Reference.engine 0 Delete true w) 1 0)
    as (H & _).
  - exact NoDup_0_1.
  - reflexivity.
  - reflexivity.
  - reflexivity.
  - exact H.
Defined.

Lemma filteredSubjects_narrows_witness :
  let w := ready (lit "A") [math 3 1; art 0 2] in
  @filteredSubjects Reference.engine (setSearchQuery (lit "mat") w)
    `sublist_of` @filteredSubjects Reference.engine (setSearchQuery (lit "a") w).
Proof.
  intros w.
  apply (@filteredSubjects_narrows Reference.engine w (lit "a") (lit "mat")).
  exists (lit "m"), (lit "t"). reflexivity.
Defined.

(** ** Operations one after the other *)

Section Composition.
Context {engine : Engine}.

(** X16: deleting the subject just added undoes the add: after an accepted
    new subject and a confirmed delete of the last row, both saved, the
    profile shown and the profile stored are the ones from before. *)
Theorem add_then_delete (w : World Profile) :
  well_formed w ->
  trim (newSubjectName w) <> [] -> ~ taken w ->
  let added := handleAddSubject true w in
  let last := Z.of_nat (length (subjects (attendanceData w))) in
  let w' := deleteSubject last Delete true added in
  length (subjects (attendanceData added))
  = S (length (subjects (attendanceData w)))
  /\ shown w' = shown w
  /\ storage w' = Some (JSON_stringify (shown w)).
Proof.
  intros Hwf Hne Hfree. unfold handleAddSubject.
  destruct (bool_decide_reflect (trim (newSubjectName w) = []));
    [contradiction|].
  destruct (existsb _ _) eqn:Hdup.
  { apply duplicate_test in Hdup. contradiction. }
  cbv zeta.
  set (s := Subject.mk (trim (newSubjectName w)) (of_Z 0) (of_Z 0)).
  unfold deleteSubject, saveData, stringify, shown. simpl.
  rewrite Array_filter_delete by lia. rewrite Nat2Z.id.
  rewrite take_app_length, drop_ge by (rewrite length_app; simpl; lia).
  rewrite app_nil_r, length_app. simpl.
  assert (Hsame : snapshot (heap w ++ [s])
                    (mkAttendance (name (attendanceData w))
                       (subjects (attendanceData w)))
                  = snapshot (heap w) (attendanceData w)).
  { unfold snapshot. simpl. f_equal.
    apply snapshot_map_app_l. exact Hwf. }
  rewrite Hsame. split; [lia|auto].
Qed.

Lemma updateAttendance_in_range (index : Z) (isPresent : bool)
    (w : World Profile) (l : loc) :
  (0 <= index)%Z ->
  subjects (attendanceData w) !! Z.to_nat index = Some l ->
  let h := <[l := recorded isPresent (heap w !!! l)]> (heap w) in
  updateAttendance index isPresent true w
  = Returned (setItem (stringify h (attendanceData w)) (set_heap h w)).
Proof.
  intros Hi Hl h. unfold updateAttendance, Array_get.
  destruct (Z.ltb_spec index 0) as [Hneg|_]; [lia|].
  rewrite Hl. subst h. destruct w as [hp [n subs] q m nn pr ld st ef].
  reflexivity.
Qed.

Lemma recorded_commutes (b b' : bool) (s : Subject.t) :
  recorded b' (recorded b s) = recorded b (recorded b' s).
Proof. destruct b, b'; reflexivity. Qed.

Lemma insert_recorded_commutes (h : list Subject.t) (l l' : loc) (b b' : bool) :
  l < length h -> l' < length h ->
  <[l' := recorded b' (<[l := recorded b (h !!! l)]> h !!! l')]>
    (<[l := recorded b (h !!! l)]> h)
  = <[l := recorded b (<[l' := recorded b' (h !!! l')]> h !!! l)]>
      (<[l' := recorded b' (h !!! l')]> h).
Proof.
  intros Hl Hl'. destruct (decide (l = l')) as [<-|Hne].
  - rewrite !list_lookup_total_insert_eq by assumption.
    rewrite !list_insert_insert_eq. f_equal. apply recorded_commutes.
  - rewrite !list_lookup_total_insert_ne by congruence.
    apply list_insert_insert_ne. congruence.
Qed.

(** X17: two presses, on any two rows and either button, give the same
    state and the same stored text in either order. *)
Theorem updateAttendance_commutes (i j : Z) (b b' : bool)
    (w : World Profile) :
  well_formed w ->
  (0 <= i < Z.of_nat (length (subjects (attendanceData w))))%Z ->
  (0 <= j < Z.of_nat (length (subjects (attendanceData w))))%Z ->
  world_of (updateAttendance j b' true
              (world_of (updateAttendance i b true w)))
  = world_of (updateAttendance i b true
                (world_of (updateAttendance j b' true w))).
Proof.
  intros Hwf Hi Hj.
  destruct (lookup_lt_is_Some_2 (subjects (attendanceData w)) (Z.to_nat i))
    as [l Hl]; [lia|].
  destruct (lookup_lt_is_Some_2 (subjects (attendanceData w)) (Z.to_nat j))
    as [l' Hl']; [lia|].
  pose proof (Forall_lookup_1 _ _ _ _ Hwf Hl) as Hlen.
  pose proof (Forall_lookup_1 _ _ _ _ Hwf Hl') as Hlen'.
  simpl in Hlen, Hlen'.
  rewrite (updateAttendance_in_range i b w l) by (lia || exact Hl).
  rewrite (updateAttendance_in_range j b' w l') by (lia || exact Hl').
  cbn [world_of].
  rewrite (updateAttendance_in_range j b' _ l') by (lia || exact Hl').
  rewrite (updateAttendance_in_range i b _ l) by (lia || exact Hl).
  cbn [world_of]. destruct w as [h [n subs] q m nn pr ld st ef].
  unfold setItem, set_heap, stringify.
  cbn [heap attendanceData searchQuery isAddModalVisible newSubjectName
       showNamePrompt isLoading storage effects] in *.
  rewrite (insert_recorded_commutes h l l' b b' Hlen Hlen'). reflexivity.
Qed.

End Composition.

Lemma updateAttendance_commutes_witness :
  let w := ready (lit "A") [math 3 1; art 0 2] in
  heap
    (world_of
       (@updateAttendance Reference.engine 1 false true
          (world_of (@updateAttendance Reference.engine 0 true true w))))
  = [math 4 1; art 0 3].
Proof.
  intros w.
  rewrite (@updateAttendance_commutes Reference.engine 0 1 true false w).
  - reflexivity.
  - repeat constructor.
  - simpl. lia.
  - simpl. lia.
Defined.

Lemma add_then_delete_witness :
  let w := setNewSubjectName (lit " Art ") (ready (lit "A") [math 3 1]) in
  shown
    (@deleteSubject Reference.engine 1 Delete true
       (@handleAddSubject Reference.engine true w))
  = mkAttendance (lit "A") [math 3 1].
Proof.
  intros w.
  destruct (@add_then_delete Reference.engine w) as (_ & H & _).
  - repeat constructor.
  - vm_compute. discriminate.
  - exact not_taken_Art.
  - exact H.
Defined.

(** ** Closing and opening the app *)

Section Restart.
Context {engine : Engine}.

Lemma restart_loads (w : World Profile) (d : attendance Subject.t) :
  storage w = Some (JSON_stringify d) ->
  JSON_parse (JSON_stringify d) = Some d ->
  JSON_parse [] = None ->
  shown (restart true w) = d
  /\ showNamePrompt (restart true w) = false
  /\ effects (restart true w) = [].
Proof.
  intros Hst Hparse Hempty. unfold restart, loadData, initial. simpl.
  rewrite Hst.
  destruct (JSON_stringify d) as [|c text] eqn:Htext; [congruence|].
  unfold parse. rewrite Hparse. simpl.
  split; [|auto]. unfold shown, snapshot. simpl.
  destruct d as [n l]. simpl. f_equal. exact (snapshot_map_seq [] l).
Qed.

(** X18: what a handler has saved is what the next start of the app shows:
    after an accepted new subject, a press on Present or Absent, a
    confirmed delete or a name from the prompt, each with its save gone
    through, closing and opening the app gives the same name, subjects
    and counters as were on the screen, with no prompt and no alert. *)
Theorem saved_profile_survives_restart (w : World Profile) (p : Prompt)
    (index : Z) (isPresent : bool) :
  (forall d, valid_profile d -> JSON_parse (JSON_stringify d) = Some d) ->
  JSON_parse [] = None ->
  let survives w' :=
    valid_profile (shown w') ->
    shown (restart true w') = shown w'
    /\ showNamePrompt (restart true w') = false
    /\ effects (restart true w') = [] in
  (trim (newSubjectName w) <> [] -> ~ taken w ->
   survives (handleAddSubject true w))
  /\ (forall w', updateAttendance index isPresent true w = Returned w' ->
      survives w')
  /\ survives (deleteSubject index Delete true w)
  /\ (trim (tempName p) <> [] -> survives (world (handleNameSubmit true p))).
Proof.
  intros Hround Hempty survives. subst survives. cbv beta.
  split; [|split; [|split]].
  - intros Hne Hfree Hvalid. apply restart_loads; auto.
    revert Hvalid. unfold handleAddSubject.
    destruct (bool_decide_reflect (trim (newSubjectName w) = []));
      [contradiction|].
    destruct (existsb _ _) eqn:Hdup.
    { apply duplicate_test in Hdup. contradiction. }
    reflexivity.
  - intros w' Hw' Hvalid. apply restart_loads; auto.
    unfold updateAttendance in Hw'.
    destruct (Array_get _ _) as [l|]; [|discriminate].
    injection Hw' as <-. reflexivity.
  - intros Hvalid. apply restart_loads; auto.
  - intros Hne Hvalid. apply restart_loads; auto.
    unfold handleNameSubmit.
    destruct (bool_decide_reflect (trim (tempName p) = [])); [contradiction|].
    reflexivity.
Qed.

End Restart.

Lemma valid_Ann_4_1 :
  valid_profile (mkAttendance (lit "Ann") [math 4 1]).
Proof.
  split; [discriminate|]. split; [reflexivity|].
  split; [repeat constructor|].
  constructor; [|constructor].
  split; [repeat constructor|].
  split; [exists 4%Z|exists 1%Z]; (split; [lia|reflexivity]).
Qed.

Lemma saved_profile_survives_restart_witness :
  let w := ready (lit "Ann") [math 3 1] in
  let w' := world_of (@updateAttendance Reference.engine 0 true true w) in
  shown (@restart Reference.engine true w')
  = mkAttendance (lit "Ann") [math 4 1].
Proof.
  intros w w'.
  destruct (@saved_profile_survives_restart Reference.engine w
              (mkPrompt w []) 0 true) as (_ & H & _).
  - exact parse_stringify.
  - reflexivity.
  - destruct (H w' eq_refl valid_Ann_4_1) as (E & _). exact E.
Defined.

(** ** The percentage on every number *)

Section PercentageMore.
Context {engine : Engine}.

(** X19: [calculatePercentage] on every pair of numbers, not only on
    counters: for finite arguments, fractions included, the result is a
    two-decimal text between 0.00 and 100.00; with an infinite [absent]
    it is ["0.00"]; and with an infinite [present], or a NaN on either
    side, it is the text ["NaN"]. *)
Theorem calculatePercentage_every_number (x y : number) :
  (finite x -> finite y ->
   exists n,
     (0 <= n <= 10000)%Z
     /\ calculatePercentage x y = fixed2 n
     /\ hundredths (calculatePercentage x y) = Some n)
  /\ (forall m e, x = Finite m e -> y = Infinity ->
      calculatePercentage x y = lit "0.00")
  /\ (x = Infinity \/ x = NaN \/ y = NaN ->
      calculatePercentage x y = lit "NaN").
Proof.
  split; [|split].
  - intros Hx Hy.
    destruct (calculatePercentage_core x y Hx Hy) as (n & Hn & Hcalc & _).
    exists n. split; [exact Hn|]. split; [exact Hcalc|].
    rewrite Hcalc. apply hundredths_fixed2. exact Hn.
  - intros m e -> ->. reflexivity.
  - intros H. destruct x, y; try reflexivity;
      destruct H as [H | [H | H]]; discriminate H.
Qed.

End PercentageMore.

Lemma calculatePercentage_every_number_witness :
  hundredths
    (@calculatePercentage Reference.engine (Finite 1 (-1)) (Finite 3 (-1)))
  = Some 2500%Z
  /\ @calculatePercentage Reference.engine (of_Z 3) Infinity = lit "0.00"
  /\ @calculatePercentage Reference.engine NaN (of_Z 3) = lit "NaN".
Proof.
  destruct (@calculatePercentage_every_number Reference.engine
              (Finite 1 (-1)) (Finite 3 (-1))) as (H & _).
  destruct H as (n & Hn & Hcalc & Hh).
  - simpl. lia.
  - simpl. lia.
  - split; [|split].
    + rewrite Hh. f_equal.
      assert (E : fixed2 n = fixed2 2500) by (rewrite <- Hcalc; reflexivity).
      apply (f_equal hundredths) in E.
      rewrite hundredths_fixed2 in E by exact Hn.
      injection E as ->. reflexivity.
    + reflexivity.
    + reflexivity.
Defined.

Section Extremes.
Context {engine : Engine}.
Local Open Scope R_scope.

Lemma of_Z_pos (p : Z) :
  (0 < p < 2 ^ 53)%Z ->
  exists m e, of_Z p = Finite m e /\ (0 < m)%Z.
Proof.
  intros Hp.
  destruct (of_Z_exact p ltac:(lia)) as (m & e & E & F & V).
  exists m, e. split; [exact E|].
  destruct F as [[Hm _] _].
  destruct (Z.eq_dec m 0%Z) as [->|Hne]; [|lia].
  simpl in V. rewrite Rmult_0_l in V.
  assert (0 < IZR p) by (apply IZR_lt; lia). lra.
Qed.

Lemma div_self (m e : Z) : (0 < m)%Z -> div (Finite m e) (Finite m e) = of_Z 1.
Proof.
  intros Hm. unfold div.
  destruct (Z.eqb_spec m 0%Z) as [->|_]; [lia|].
  destruct (frac m e) as [a b] eqn:Hf.
  pose proof (frac_pos _ _ _ _ Hf Hm) as Ha.
  destruct (frac_R _ _ _ _ Hf) as [Hb _].
  unfold of_Z. apply round_ratio; nia.
Qed.

Lemma div_zero (m e : Z) : (0 < m)%Z -> div (Finite 0 0) (Finite m e) = Finite 0 0.
Proof.
  intros Hm. unfold div.
  destruct (Z.eqb_spec m 0%Z) as [->|_]; [lia|].
  change (frac 0 0) with (0%Z, 1%Z).
  destruct (frac m e) as [a b]. apply round_zero. lia.
Qed.

(** X20: the two ends of the scale, for every counter below [2^53]: classes
    all attended give ["100.00"], classes all missed give ["0.00"]. *)
Theorem calculatePercentage_extremes (k : Z) :
  (0 < k < 2 ^ 53)%Z ->
  calculatePercentage (of_Z k) (of_Z 0) = lit "100.00"
  /\ calculatePercentage (of_Z 0) (of_Z k) = lit "0.00".
Proof.
  intros Hk. destruct (of_Z_pos k Hk) as (m & e & E & Hm).
  unfold calculatePercentage. split.
  - rewrite add_of_Z, Z.add_0_r by lia. rewrite E.
    cbn [is_zero]. destruct (Z.eqb_spec m 0%Z) as [->|_]; [lia|].
    rewrite div_self by exact Hm. vm_compute. reflexivity.
  - rewrite add_of_Z, Z.add_0_l by lia. rewrite E.
    cbn [is_zero]. destruct (Z.eqb_spec m 0%Z) as [->|_]; [lia|].
    change (of_Z 0) with (Finite 0 0).
    rewrite div_zero by exact Hm. vm_compute. reflexivity.
Qed.

End Extremes.

Lemma calculatePercentage_extremes_witness :
  @calculatePercentage Reference.engine (of_Z 7) (of_Z 0) = lit "100.00".
Proof.
  apply (@calculatePercentage_extremes Reference.engine 7). lia.
Defined.
